(** * ghz runner: per-call template data (runner/call_template_data.go)

    A shallow embedding of the call context, of the entries of the template
    function table that carry logic of their own, and of the two rendering
    entry points [executeData] and [executeMetadata].

    Conventions.
    - Go's [int] and [int64] are 64-bit two's complement integers: values
      are [Z], and every addition and subtraction is wrapped by [GoInt.wrap].
    - A Go function can return normally, panic, or loop; the monad [M]
      threads the process-wide state ([World]) and records the three
      outcomes.  A loop is run with fuel and [OutOfFuel] is the third
      outcome.
    - A Go result pair [(v, err)] is a pair [(v, option error)].  The texts
      of run-time panics and of library errors are abbreviated.
    - The libraries the file calls (text/template, encoding/json,
      google/uuid, time) are not part of the repository.  The template
      engine and the JSON decoder are parameters ([TemplateEngine],
      [JSONDecoder]); [MiniTemplate] and [MiniJSON] give executable
      instances for a fragment, used to run the entry points on concrete
      templates. *)

From Stdlib Require Import ZArith List String Ascii Lia DecimalString DecimalPos.
From stdpp Require Import base gmap list strings.

Open Scope Z_scope.

(** ** Machine integers *)

Module GoInt.

Definition min_int : Z := - 2 ^ 63.
Definition max_int : Z := 2 ^ 63 - 1.

Definition in_range (z : Z) : Prop := min_int <= z <= max_int.

(** Two's complement wrap-around of a mathematical result. *)
Definition wrap (z : Z) : Z := (z + 2 ^ 63) mod 2 ^ 64 - 2 ^ 63.

Definition add (a b : Z) : Z := wrap (a + b).
Definition sub (a b : Z) : Z := wrap (a - b).

(** [a / b] for [b <> 0]: truncated towards zero ([min_int / -1] wraps). *)
Definition quot (a b : Z) : Z := wrap (Z.quot a b).

(** [a % b] for [b <> 0]: the sign of the result follows the dividend. *)
Definition rem (a b : Z) : Z := Z.rem a b.

End GoInt.

(** [strconv.Itoa] *)
Definition Itoa (z : Z) : string := NilZero.string_of_int (Z.to_int z).

(** ** Process state, panics and loops *)

Definition error : Type := string.

(** The state shared by every call in the process: the global math/rand
    source (an infinite sequence of raw draws and a cursor into it) and a
    log of the texts handed to the template parser. *)
Record World : Type := mkWorld {
  rand_draws : nat -> Z;
  rand_pos : nat;
  parse_log : list string
}.

Inductive outcome (A : Type) : Type :=
| Done (a : A) (w : World)
| Panic (msg : string)
| OutOfFuel.

Arguments Done {A} a w.
Arguments Panic {A} msg.
Arguments OutOfFuel {A}.

Definition M (A : Type) : Type := World -> outcome A.

Definition ret {A} (a : A) : M A := fun w => Done a w.

Definition bind {A B} (c : M A) (k : A -> M B) : M B :=
  fun w =>
    match c w with
    | Done a w' => k a w'
    | Panic msg => Panic msg
    | OutOfFuel => OutOfFuel
    end.

Definition panic {A} (msg : string) : M A := fun _ => Panic msg.

Notation "x <- c ;; k" := (bind c (fun x => k))
  (at level 100, c at next level, right associativity).

(** The next raw draw of the random source, and the world once it is
    consumed. *)
Definition next_draw (w : World) : Z := rand_draws w (rand_pos w).

Definition advance (w : World) : World :=
  mkWorld (rand_draws w) (S (rand_pos w)) (parse_log w).

(** The world after the template parser was handed [text]. *)
Definition logged (w : World) (text : string) : World :=
  mkWorld (rand_draws w) (rand_pos w) (text :: parse_log w).

(** [rand.Intn(n)]: panics when [n <= 0], otherwise consumes one draw of the
    global source and returns a value of [[0, n)]. *)
Definition Intn (n : Z) : M Z :=
  fun w =>
    if n <=? 0 then Panic "invalid argument to Intn"
    else Done (next_draw w mod n) (advance w).

(** ** Slices of strings

    A [[]string] is a window on a backing array: [elems] are the [len]
    elements of the window, [spare] the array cells between [len] and
    [cap]. *)

Record slice : Type := mkSlice {
  elems : list string;
  spare : list string
}.

Definition len (s : slice) : Z := Z.of_nat (length (elems s)).
Definition cap (s : slice) : Z := Z.of_nat (length (elems s ++ spare s)).

(** The composite literal [[]string{}]. *)
Definition empty_slice : slice := mkSlice [] [].

(** [make([]string, 0, c)]: panics when the capacity is negative (memory
    is not bounded in the model). *)
Definition make0 (c : Z) : M slice :=
  if c <? 0 then panic "makeslice: cap out of range"
  else ret (mkSlice [] (replicate (Z.to_nat c) EmptyString)).

(** [append(s, x)]: writes into the spare capacity when there is some,
    otherwise moves to a new array (whose extra capacity is left out). *)
Definition append (s : slice) (x : string) : slice :=
  mkSlice (elems s ++ [x]) (tail (spare s)).

(** [s[i]]: the index is checked against [len]. *)
Definition index (s : slice) (i : Z) : M string :=
  if (0 <=? i) && (i <? len s) then
    match elems s !! Z.to_nat i with
    | Some x => ret x
    | None => panic "index out of range"
    end
  else panic "index out of range".

(** [s[lo:hi]]: the bounds are checked against [cap]. *)
Definition reslice (s : slice) (lo hi : Z) : M slice :=
  if (0 <=? lo) && (lo <=? hi) && (hi <=? cap s) then
    let arr := elems s ++ spare s in
    ret (mkSlice (take (Z.to_nat (hi - lo)) (drop (Z.to_nat lo) arr))
                 (drop (Z.to_nat hi) arr))
  else panic "slice bounds out of range".

(** A slice whose length fits in an [int], as every Go slice does. *)
Definition slice_wf (s : slice) : Prop := cap s <= GoInt.max_int.

(** ** The call context *)

Record callTemplateData : Type := mkCallTemplateData {
  WorkerID : string;
  RequestNumber : Z;
  FullyQualifiedName : string;
  MethodName : string;
  ServiceName : string;
  InputName : string;
  OutputName : string;
  IsClientStreaming : bool;
  IsServerStreaming : bool;
  Timestamp : string;
  TimestampUnix : Z;
  TimestampUnixMilli : Z;
  TimestampUnixNano : Z;
  UUID : string
}.

(** ** Collaborators of the call context builder *)

(** The method descriptor (github.com/jhump/protoreflect/desc), seen
    through the getters the builder calls on it. *)
Record MethodDescriptor : Type := mkMethodDescriptor {
  GetFullyQualifiedName : string;
  GetName : string;
  GetServiceName : string;
  GetInputTypeName : string;
  GetOutputTypeName : string;
  GetIsClientStreaming : bool;
  GetIsServerStreaming : bool
}.

(** One reading of the wall clock, seen through the three methods the
    builder calls on it. *)
Record Time : Type := mkTime {
  Format_RFC3339 : string;
  Unix : Z;
  UnixNano : Z
}.

(** github.com/google/uuid: a UUID is an array of 16 bytes; [NewRandom]
    fills it from the system's random reader and returns [Nil] with an
    error when the read fails; [String] prints the 36-character
    hexadecimal form. *)
Module uuid.

Definition UUID : Type := list Z.

Definition Nil : UUID := replicate 16 0.

Definition hex_digit (n : Z) : ascii :=
  nth (Z.to_nat n) (list_ascii_of_string "0123456789abcdef") "0"%char.

Definition hex_byte (b : Z) : string :=
  String (hex_digit (b / 16)) (String (hex_digit (b mod 16)) EmptyString).

Definition encodeHex (bs : list Z) : string :=
  fold_right (fun b acc => (hex_byte b ++ acc)%string) EmptyString bs.

Definition String (u : UUID) : string :=
  (encodeHex (take 4 u) ++ "-" ++
   encodeHex (take 2 (drop 4 u)) ++ "-" ++
   encodeHex (take 2 (drop 6 u)) ++ "-" ++
   encodeHex (take 2 (drop 8 u)) ++ "-" ++
   encodeHex (drop 10 u))%string.

(** [entropy] is what the random reader delivers: 16 bytes, or nothing
    when the read fails. *)
Definition NewRandom (entropy : option (list Z)) : UUID * option error :=
  match entropy with
  | None => (Nil, Some "uuid: random read failed"%string)
  | Some bs =>
      let u := take 16 (bs ++ Nil) in
      let u := <[6%nat := Z.lor (Z.land (nth 6 u 0) 15) 64]> u in
      let u := <[8%nat := Z.lor (Z.land (nth 8 u 0) 63) 128]> u in
      (u, None)
  end.

End uuid.

(** [newCallTemplateData]: [now] is the value of [time.Now()] and [entropy]
    what the random reader gives to [uuid.NewRandom()]. *)
Definition newCallTemplateData (now : Time) (entropy : option (list Z))
    (mtd : MethodDescriptor) (workerID : string) (reqNum : Z)
  : callTemplateData :=
  let '(newUUID, _) := uuid.NewRandom entropy in
  {| WorkerID := workerID;
     RequestNumber := reqNum;
     FullyQualifiedName := GetFullyQualifiedName mtd;
     MethodName := GetName mtd;
     ServiceName := GetServiceName mtd;
     InputName := GetInputTypeName mtd;
     OutputName := GetOutputTypeName mtd;
     IsClientStreaming := GetIsClientStreaming mtd;
     IsServerStreaming := GetIsServerStreaming mtd;
     Timestamp := Format_RFC3339 now;
     TimestampUnix := Unix now;
     TimestampUnixMilli := GoInt.quot (UnixNano now) 1000000;
     TimestampUnixNano := UnixNano now;
     UUID := uuid.String newUUID |}.

(** ** The function table of [execute] *)

(** The loop [for start < end { res = append(res, Itoa(start)); start += step }]. *)
Fixpoint Range_loop (fuel : nat) (start end_ step : Z) (res : slice) : M slice :=
  match fuel with
  | O => fun _ => OutOfFuel
  | S fuel' =>
      if start <? end_ then
        Range_loop fuel' (GoInt.add start step) end_ step (append res (Itoa start))
      else ret res
  end.

(** "Range": generate sequence number by step, include start, exclude end. *)
Definition Range (fuel : nat) (start end_ step : Z) : M slice :=
  if (step <=? 0) || (start >=? step) then ret empty_slice
  else
    res <- make0 (GoInt.add (GoInt.quot (GoInt.sub end_ start) step) 1) ;;
    Range_loop fuel start end_ step res.

(** "RandomChoice": randomly choose one value from values. *)
Definition RandomChoice (values : slice) : M (string * option error) :=
  if len values <? 1 then ret (EmptyString, Some "values is empty"%string)
  else
    i <- Intn (len values) ;;
    value <- index values i ;;
    ret (value, None).

(** "RandomSlice": randomly returns a continuous non-empty sub sequence of
    input. *)
Definition RandomSlice (values : slice) : M (slice * option error) :=
  if len values <? 1 then ret (empty_slice, Some "values is empty"%string)
  else
    start <- Intn (len values) ;;
    end_ <- Intn (len values) ;;
    let '(start, end_) :=
      if start >? end_ then (end_, start)
      else if start =? end_ then
        if start =? 0 then (start, GoInt.add end_ 1)
        else (GoInt.sub start 1, end_)
      else (start, end_) in
    r <- reslice values start end_ ;;
    ret (r, None).

(** "RandomSliceK": randomly returns a continuous sub sequence with length
    k of input. *)
Definition RandomSliceK (values : slice) (k : Z) : M (slice * option error) :=
  if len values <? k then
    ret (empty_slice, Some "values must be longer than k"%string)
  else if len values =? k then ret (values, None)
  else
    start <- Intn (GoInt.sub (len values) k) ;;
    let end_ := GoInt.add start k in
    r <- reslice values start end_ ;;
    ret (r, None).

(** "RandomInt": randomly returns a int between [n,m), where m > n >= 0,
    returns string. *)
Definition RandomInt (n m : Z) : M (string * option error) :=
  if (n <? 0) || (m <? 1) then ret (EmptyString, Some "must be m > n >= 0"%string)
  else if m <=? n then ret (EmptyString, Some "m must > n"%string)
  else
    r <- Intn (GoInt.sub m n) ;;
    ret (Itoa (GoInt.add r n), None).

(** "RoundRobin": round-robin-ly select one value from values, mod with
    RequestNumber. *)
Definition RoundRobin (td : callTemplateData) (values : slice)
  : M (string * option error) :=
  if len values <? 1 then ret (EmptyString, Some "values is empty"%string)
  else
    value <- index values (GoInt.rem (RequestNumber td) (len values)) ;;
    ret (value, None).

(** A function value of the table, by signature. *)
Inductive func : Type :=
| Func_ints_strings (f : Z -> Z -> Z -> M slice)
| Func_strings_string (f : slice -> M (string * option error))
| Func_strings_strings (f : slice -> M (slice * option error))
| Func_strings_int_strings (f : slice -> Z -> M (slice * option error))
| Func_ints_string (f : Z -> Z -> M (string * option error)).

Definition FuncMap : Type := list (string * func).

(** The entries of the [template.FuncMap] literal that carry logic of their
    own, closed over the call context.  The other entries (Read, ToInt,
    Join, Split, B64Encode, B64Decode, ListFile, Shuffle) forward to
    io/ioutil, strconv, strings, encoding/base64 and math/rand. *)
Definition funcs (fuel : nat) (td : callTemplateData) : FuncMap :=
  [ ("Range"%string, Func_ints_strings (Range fuel));
    ("RandomChoice"%string, Func_strings_string RandomChoice);
    ("RandomSlice"%string, Func_strings_strings RandomSlice);
    ("RandomSliceK"%string, Func_strings_int_strings RandomSliceK);
    ("RandomInt"%string, Func_ints_string RandomInt);
    ("RoundRobin"%string, Func_strings_string (RoundRobin td)) ].

(** ** The rendering entry points *)

Definition bytes : Type := list Byte.byte.

(** The conversion [[]byte(s)]. *)
Definition bytes_of_string (s : string) : bytes := list_byte_of_string s.

(** text/template, as far as [execute] uses it. *)
Class TemplateEngine : Type := {
  Template : Type;
  (** [template.New(name).Funcs(fm).Parse(text)] *)
  template_Parse : FuncMap -> string -> Template + error;
  (** [t.Execute(&buf, td)]: what was written to [buf], and the error. *)
  template_Execute : Template -> callTemplateData -> M (bytes * option error)
}.

(** encoding/json, as far as [executeMetadata] uses it:
    [json.Unmarshal(input, &m)] gives the map after the call and the
    error.  A nil map and an empty map are both [∅]. *)
Class JSONDecoder : Type := {
  json_Unmarshal : bytes -> gmap string string -> gmap string string * option error
}.

Section Render.

Context {engine : TemplateEngine} {json : JSONDecoder}.

(** Iterations a loop of the function table may run. *)
Variable fuel : nat.

(** The parser call, recorded in the world's log. *)
Definition Parse (fm : FuncMap) (text : string) : M (Template + error) :=
  fun w =>
    Done (template_Parse fm text)
         (mkWorld (rand_draws w) (rand_pos w) (text :: parse_log w)).

(** [template.Must]: panics when the error is not nil. *)
Definition Must {A} (r : A + error) : M A :=
  match r with
  | inl t => ret t
  | inr e => panic e
  end.

Definition execute (td : callTemplateData) (data : string)
  : M (bytes * option error) :=
  r <- Parse (funcs fuel td) data ;;
  t <- Must r ;;
  template_Execute t td.

Definition executeData (td : callTemplateData) (data : string)
  : M (bytes * option error) :=
  if 0 <? Z.of_nat (String.length data) then
    let input := bytes_of_string data in
    r <- execute td data ;;
    let '(tpl, err) := r in
    let input := match err with None => tpl | Some _ => input end in
    ret (input, None)
  else ret ([], None).

(** The result is a pointer to the map ([None] is the nil pointer). *)
Definition executeMetadata (td : callTemplateData) (metadata : string)
  : M (option (gmap string string) * option error) :=
  let mdMap : gmap string string := ∅ in
  if 0 <? Z.of_nat (String.length metadata) then
    let input := bytes_of_string metadata in
    r <- execute td metadata ;;
    let '(tpl, err) := r in
    let input := match err with None => tpl | Some _ => input end in
    let '(mdMap, err) := json_Unmarshal input mdMap in
    match err with
    | Some e => ret (None, Some e)
    | None => ret (Some mdMap, None)
    end
  else ret (Some mdMap, None).

End Render.

(** ** An executable engine for a fragment of text/template

    The fragment: literal text, field actions [{{.Name}}] on the call
    context, and calls [{{F n1 ... nk}}] of a function of the table on
    decimal integer literals.  The parser reports an unclosed action, an
    empty action and an undefined function as text/template does; it
    also rejects whatever lies outside the fragment, so only templates of
    the fragment are to be run through it.  Execution stops at the first
    failing action and keeps what was written before it; a panic of a
    called function is recovered and becomes the execution error, as
    text/template does since Go 1.12. *)
Module MiniTemplate.

Inductive node : Type :=
| TextNode (text : string)
| FieldNode (name : string)
| CallNode (name : string) (args : list Z).

(** The text before the first [{{], and what follows it. *)
Fixpoint split_open (s : string) : string * option string :=
  match s with
  | EmptyString => (EmptyString, None)
  | String c rest =>
      match rest with
      | String c' rest' =>
          if (Ascii.eqb c "{" && Ascii.eqb c' "{")%bool then (EmptyString, Some rest')
          else let '(t, r) := split_open rest in (String c t, r)
      | EmptyString => (String c EmptyString, None)
      end
  end.

(** The text before the first [}}], and what follows it. *)
Fixpoint split_close (s : string) : string * option string :=
  match s with
  | EmptyString => (EmptyString, None)
  | String c rest =>
      match rest with
      | String c' rest' =>
          if (Ascii.eqb c "}" && Ascii.eqb c' "}")%bool then (EmptyString, Some rest')
          else let '(t, r) := split_close rest in (String c t, r)
      | EmptyString => (String c EmptyString, None)
      end
  end.

(** The words of an action, separated by spaces. *)
Fixpoint words (s : string) (cur : string) : list string :=
  let flush := match cur with EmptyString => [] | _ => [cur] end in
  match s with
  | EmptyString => flush
  | String c rest =>
      if Ascii.eqb c " " then flush ++ words rest EmptyString
      else words rest (cur ++ String c EmptyString)%string
  end.

Definition is_digit (c : ascii) : bool :=
  let n := N_of_ascii c in ((48 <=? n) && (n <=? 57))%N.

Definition is_ident_char (c : ascii) : bool :=
  let n := N_of_ascii c in
  (is_digit c || ((65 <=? n) && (n <=? 90)) || ((97 <=? n) && (n <=? 122))
   || (n =? 95))%N.

Definition is_ident (s : string) : bool :=
  match s with
  | EmptyString => false
  | String c _ => negb (is_digit c) && forallb is_ident_char (list_ascii_of_string s)
  end.

Fixpoint digits (s : string) (acc : Z) : option Z :=
  match s with
  | EmptyString => Some acc
  | String c rest =>
      if is_digit c then digits rest (10 * acc + (Z.of_N (N_of_ascii c) - 48))
      else None
  end.

(** A decimal integer literal that fits in an [int]. *)
Definition int_literal (s : string) : option Z :=
  let r :=
    match s with
    | EmptyString => None
    | String c rest =>
        if Ascii.eqb c "-" then
          match rest with
          | EmptyString => None
          | _ => z ← digits rest 0; Some (- z)
          end
        else digits s 0
    end in
  z ← r;
  if (GoInt.min_int <=? z) && (z <=? GoInt.max_int) then Some z else None.

Fixpoint int_literals (l : list string) : option (list Z) :=
  match l with
  | [] => Some []
  | s :: l' => z ← int_literal s; zs ← int_literals l'; Some (z :: zs)
  end.

Fixpoint lookup_func (fm : FuncMap) (name : string) : option func :=
  match fm with
  | [] => None
  | (n, f) :: fm' => if String.eqb n name then Some f else lookup_func fm' name
  end.

Definition parse_action (fm : FuncMap) (body : string) : node + error :=
  match words body EmptyString with
  | [] => inr "missing value for command"%string
  | w :: args =>
      match w with
      | String "." name =>
          if is_ident name && match args with [] => true | _ => false end
          then inl (FieldNode name)
          else inr "outside the fragment"%string
      | _ =>
          if is_ident w then
            match lookup_func fm w with
            | None => inr ("function " ++ w ++ " not defined")%string
            | Some _ =>
                match int_literals args with
                | Some zs => inl (CallNode w zs)
                | None => inr "outside the fragment"%string
                end
            end
          else inr "outside the fragment"%string
      end
  end.

Fixpoint parse_nodes (n : nat) (fm : FuncMap) (s : string) : list node + error :=
  match n with
  | O => inl []
  | S n' =>
      match split_open s with
      | (text, None) => inl [TextNode text]
      | (text, Some rest) =>
          match split_close rest with
          | (_, None) => inr "unclosed action"%string
          | (body, Some rest') =>
              match parse_action fm body with
              | inr e => inr e
              | inl a =>
                  match parse_nodes n' fm rest' with
                  | inr e => inr e
                  | inl ns => inl (TextNode text :: a :: ns)
                  end
              end
          end
      end
  end.

(** A parsed template keeps the function table it was parsed with. *)
Definition template : Type := FuncMap * list node.

Definition Parse (fm : FuncMap) (text : string) : template + error :=
  match parse_nodes (S (String.length text)) fm text with
  | inl ns => inl (fm, ns)
  | inr e => inr e
  end.

(** The printed form of an exported field of the call context. *)
Definition field (td : callTemplateData) (name : string) : option string :=
  let of_bool (b : bool) := if b then "true"%string else "false"%string in
  if String.eqb name "WorkerID" then Some (WorkerID td)
  else if String.eqb name "RequestNumber" then Some (Itoa (RequestNumber td))
  else if String.eqb name "FullyQualifiedName" then Some (FullyQualifiedName td)
  else if String.eqb name "MethodName" then Some (MethodName td)
  else if String.eqb name "ServiceName" then Some (ServiceName td)
  else if String.eqb name "InputName" then Some (InputName td)
  else if String.eqb name "OutputName" then Some (OutputName td)
  else if String.eqb name "IsClientStreaming" then Some (of_bool (IsClientStreaming td))
  else if String.eqb name "IsServerStreaming" then Some (of_bool (IsServerStreaming td))
  else if String.eqb name "Timestamp" then Some (Timestamp td)
  else if String.eqb name "TimestampUnix" then Some (Itoa (TimestampUnix td))
  else if String.eqb name "TimestampUnixMilli" then Some (Itoa (TimestampUnixMilli td))
  else if String.eqb name "TimestampUnixNano" then Some (Itoa (TimestampUnixNano td))
  else if String.eqb name "UUID" then Some (UUID td)
  else None.

(** The printed form of a [[]string]: [[a b c]]. *)
Definition print_strings (l : list string) : string :=
  ("[" ++ String.concat " " l ++ "]")%string.

(** A call with the panic of the callee recovered: the text to print, or
    the error. *)
Definition safeCall (f : func) (args : list Z) : M (string + error) :=
  fun w =>
    let recovered {A} (o : outcome A) (k : A -> string + error) : outcome (string + error) :=
      match o with
      | Done a w' => Done (k a) w'
      | Panic msg => Done (inr msg) w
      | OutOfFuel => OutOfFuel
      end in
    let of_result (r : string * option error) : string + error :=
      match r with
      | (s, None) => inl s
      | (_, Some e) => inr e
      end in
    match f, args with
    | Func_ints_strings g, [a; b; c] =>
        recovered (g a b c w) (fun r => inl (print_strings (elems r)))
    | Func_ints_string g, [a; b] => recovered (g a b w) of_result
    | _, _ => Done (inr "wrong number or type of arguments"%string) w
    end.

Fixpoint exec_nodes (fm : FuncMap) (td : callTemplateData) (ns : list node)
    (buf : string) : M (bytes * option error) :=
  match ns with
  | [] => ret (bytes_of_string buf, None)
  | TextNode text :: ns' => exec_nodes fm td ns' (buf ++ text)%string
  | FieldNode name :: ns' =>
      match field td name with
      | Some v => exec_nodes fm td ns' (buf ++ v)%string
      | None => ret (bytes_of_string buf, Some ("can't evaluate field " ++ name)%string)
      end
  | CallNode name args :: ns' =>
      match lookup_func fm name with
      | None => ret (bytes_of_string buf, Some ("function " ++ name ++ " not defined")%string)
      | Some f =>
          r <- safeCall f args ;;
          match r with
          | inl v => exec_nodes fm td ns' (buf ++ v)%string
          | inr e => ret (bytes_of_string buf, Some ("error calling " ++ name ++ ": " ++ e)%string)
          end
      end
  end.

Definition Execute (t : template) (td : callTemplateData) : M (bytes * option error) :=
  exec_nodes (fst t) td (snd t) EmptyString.

Definition engine : TemplateEngine :=
  {| Template := template; template_Parse := Parse; template_Execute := Execute |}.

End MiniTemplate.

(** ** An executable decoder for a fragment of encoding/json

    [json.Unmarshal] into a [map[string]string], for inputs that are
    [null] or an object whose keys and values are string literals without
    escape sequences, with optional white space between the tokens.  Any
    other input is reported as an error, which is what encoding/json does
    for text that is not JSON and for values that are not strings; JSON
    texts with escape sequences or [null] members lie outside the
    fragment. *)
Module MiniJSON.

Definition is_space (c : ascii) : bool :=
  let n := N_of_ascii c in ((n =? 32) || (n =? 9) || (n =? 10) || (n =? 13))%N.

Fixpoint skip_space (l : list ascii) : list ascii :=
  match l with
  | c :: r => if is_space c then skip_space r else l
  | [] => []
  end.

(** The double quote character. *)
Definition quote : ascii := ascii_of_nat 34.

(** The characters up to the closing quote, and what follows it. *)
Fixpoint read_string (l : list ascii) : option (string * list ascii) :=
  match l with
  | [] => None
  | c :: r =>
      if Ascii.eqb c quote then Some (EmptyString, r)
      else if (Ascii.eqb c "\" || (N_of_ascii c <? 32)%N)%bool then None
      else '(s, r') ← read_string r; Some (String c s, r')
  end.

Definition read_quoted (l : list ascii) : option (string * list ascii) :=
  match skip_space l with
  | c :: r => if Ascii.eqb c quote then read_string r else None
  | [] => None
  end.

(** The members of an object, up to and including the closing brace. *)
Fixpoint read_members (n : nat) (l : list ascii) (m : gmap string string)
  : option (gmap string string * list ascii) :=
  match n with
  | O => None
  | S n' =>
      '(k, r1) ← read_quoted l;
      match skip_space r1 with
      | c :: r2 =>
          if Ascii.eqb c ":" then
            '(v, r3) ← read_quoted r2;
            match skip_space r3 with
            | c' :: r4 =>
                if Ascii.eqb c' "," then read_members n' r4 (<[k := v]> m)
                else if Ascii.eqb c' "}" then Some (<[k := v]> m, r4)
                else None
            | [] => None
            end
          else None
      | [] => None
      end
  end.

Definition read_value (l : list ascii) (m : gmap string string)
  : option (gmap string string * list ascii) :=
  match skip_space l with
  | c :: r =>
      if Ascii.eqb c "{" then
        match skip_space r with
        | c' :: r' =>
            if Ascii.eqb c' "}" then Some (m, r')
            else read_members (length r) r m
        | [] => None
        end
      else
        match l with
        | "n"%char :: "u"%char :: "l"%char :: "l"%char :: r' =>
            if Ascii.eqb c "n" then Some (m, r') else None
        | _ => None
        end
  | [] => None
  end.

Definition Unmarshal (input : bytes) (m : gmap string string)
  : gmap string string * option error :=
  match read_value (list_ascii_of_string (string_of_list_byte input)) m with
  | Some (m', rest) =>
      match skip_space rest with
      | [] => (m', None)
      | _ => (m, Some "invalid character after top-level value"%string)
      end
  | None => (m, Some "cannot unmarshal into map[string]string"%string)
  end.

Definition decoder : JSONDecoder := {| json_Unmarshal := Unmarshal |}.

End MiniJSON.

(** ** Sample inputs *)

Module Sample.

Definition mtd : MethodDescriptor :=
  mkMethodDescriptor "helloworld.Greeter.SayHello" "SayHello" "Greeter"
                     "HelloRequest" "HelloReply" false false.

Definition now : Time :=
  mkTime "2020-01-02T03:04:05Z" 1577934245 1577934245000000000.

(** A context built while the random reader works. *)
Definition td : callTemplateData :=
  newCallTemplateData now (Some (replicate 16 171)) mtd "w1" 7.

(** A world whose random source counts 0, 1, 2, ... *)
Definition w0 : World := mkWorld (fun i => Z.of_nat i) 0 [].

(** A world whose next two draws are [a] and [b]. *)
Definition world_of (a b : Z) : World :=
  mkWorld (fun i => match i with O => a | _ => b end) 0 [].

Definition strings (l : list string) : slice := mkSlice l [].

(** The JSON text of a string literal and of a one-member object. *)
Definition json_string (s : string) : string :=
  (String MiniJSON.quote s ++ String MiniJSON.quote EmptyString)%string.

Definition json_object (k v : string) : string :=
  ("{" ++ json_string k ++ ":" ++ json_string v ++ "}")%string.

(** The sample context at another request number. *)
Definition td_at (reqNum : Z) : callTemplateData :=
  newCallTemplateData now (Some (replicate 16 171)) mtd "w1" reqNum.

End Sample.

(** ** Vocabulary of the properties *)

(** The contiguous window [[start, start+k)] of a sequence. *)
Definition window (l : list string) (start k : Z) : list string :=
  take (Z.to_nat k) (drop (Z.to_nat start) l).

(** The bounds the claim describes for two indices [a] and [b]: swapped
    when [a > b]; when [a = b], the end extended by one if the index is 0,
    the start decremented by one otherwise. *)
Definition adjusted_bounds (a b : Z) : Z * Z :=
  if a >? b then (b, a)
  else if a =? b then
    if a =? 0 then (a, b + 1) else (a - 1, b)
  else (a, b).

(** The values [start, start+step, start+2*step, ...] that are strictly
    less than [end_], for a positive [step]. *)
Definition progression (start end_ step : Z) : list Z :=
  (fun i => start + i * step) <$> seqZ 0 ((end_ - start + step - 1) `div` step).

(** The entry points over the executable engine and decoder. *)
Module Run.

Definition executeData := @executeData MiniTemplate.engine.
Definition execute := @execute MiniTemplate.engine.
Definition executeMetadata := @executeMetadata MiniTemplate.engine MiniJSON.decoder.

End Run.

(** ** The other entries of the function table

    Read, ToInt, Join, Split, B64Encode, B64Decode, ListFile and Shuffle
    forward to the standard library.  The entries below are embedded with
    the library functions they forward to: strconv.Atoi, the standard
    encoding of encoding/base64 (RFC 4648, with padding) and
    math/rand.Shuffle are written out; the directory listing and path.Join
    are parameters of ListFile. *)

Module strconv.

Definition is_digit (c : ascii) : bool :=
  ((48 <=? N_of_ascii c) && (N_of_ascii c <=? 57))%N.

Definition digit_value (c : ascii) : Z := Z.of_N (N_of_ascii c) - 48.

(** The value of a run of decimal digits, most significant first. *)
Fixpoint digits (s : string) (acc : Z) : option Z :=
  match s with
  | EmptyString => Some acc
  | String c rest =>
      if is_digit c then digits rest (10 * acc + digit_value c) else None
  end.

(** [strconv.Atoi]: an optional sign and at least one decimal digit; a
    value outside of [int] is reported with the nearest bound. *)
Definition Atoi (s : string) : Z * option error :=
  let syntax : Z * option error := (0, Some "invalid syntax"%string) in
  match s with
  | EmptyString => syntax
  | String c rest =>
      let neg := Ascii.eqb c "-" in
      let body := if (neg || Ascii.eqb c "+")%bool then rest else s in
      match body with
      | EmptyString => syntax
      | _ =>
          match digits body 0 with
          | None => syntax
          | Some n =>
              if negb neg && (GoInt.max_int <? n) then
                (GoInt.max_int, Some "value out of range"%string)
              else if neg && (n >? - GoInt.min_int) then
                (GoInt.min_int, Some "value out of range"%string)
              else (if neg then - n else n, None)
          end
      end
  end.

End strconv.

(** "ToInt": convert string to int. *)
Definition ToInt (str : string) : Z * option error :=
  let '(res, err) := strconv.Atoi str in
  match err with
  | Some e => (0, Some e)
  | None => (res, None)
  end.

Module base64.

(** The alphabet of the standard encoding; the padding character is [=]. *)
Definition encodeStd : string :=
  "ABCDEFGHIJKLMNOPQRSTUVWXYZabcdefghijklmnopqrstuvwxyz0123456789+/".

Definition padChar : ascii := "=".

(** The character of a 6-bit value. *)
Definition encode_value (n : N) : ascii :=
  match String.get (N.to_nat n) encodeStd with
  | Some c => c
  | None => padChar
  end.

Fixpoint position (c : ascii) (s : string) (i : N) : option N :=
  match s with
  | EmptyString => None
  | String c' rest => if Ascii.eqb c c' then Some i else position c rest (N.succ i)
  end.

(** The decoding map: the 6-bit value of a character of the alphabet. *)
Definition decode_char (c : ascii) : option N := position c encodeStd 0.

(** A 6-bit value from its bits, most significant first. *)
Definition sextet (b5 b4 b3 b2 b1 b0 : bool) : N :=
  N_of_ascii (Ascii b0 b1 b2 b3 b4 b5 false false).

(** Three bytes cut into four 6-bit values. *)
Definition encode3 (x y z : ascii) : string :=
  let '(Ascii x0 x1 x2 x3 x4 x5 x6 x7) := x in
  let '(Ascii y0 y1 y2 y3 y4 y5 y6 y7) := y in
  let '(Ascii z0 z1 z2 z3 z4 z5 z6 z7) := z in
  String (encode_value (sextet x7 x6 x5 x4 x3 x2))
    (String (encode_value (sextet x1 x0 y7 y6 y5 y4))
       (String (encode_value (sextet y3 y2 y1 y0 z7 z6))
          (String (encode_value (sextet z5 z4 z3 z2 z1 z0)) EmptyString))).

(** [EncodeToString]: full groups of three bytes, then a padded group for
    the one or two bytes that remain. *)
Fixpoint EncodeToString (src : string) : string :=
  match src with
  | EmptyString => EmptyString
  | String x EmptyString =>
      let '(Ascii x0 x1 x2 x3 x4 x5 x6 x7) := x in
      String (encode_value (sextet x7 x6 x5 x4 x3 x2))
        (String (encode_value (sextet x1 x0 false false false false))
           (String padChar (String padChar EmptyString)))
  | String x (String y EmptyString) =>
      let '(Ascii x0 x1 x2 x3 x4 x5 x6 x7) := x in
      let '(Ascii y0 y1 y2 y3 y4 y5 y6 y7) := y in
      String (encode_value (sextet x7 x6 x5 x4 x3 x2))
        (String (encode_value (sextet x1 x0 y7 y6 y5 y4))
           (String (encode_value (sextet y3 y2 y1 y0 false false))
              (String padChar EmptyString)))
  | String x (String y (String z rest)) =>
      (encode3 x y z ++ EncodeToString rest)%string
  end.

(** The bytes of a group of four, three or two 6-bit values; the bits that
    do not fill a byte are dropped. *)
Definition byte1 (a b : N) : ascii :=
  let '(Ascii a0 a1 a2 a3 a4 a5 _ _) := ascii_of_N a in
  let '(Ascii _ _ _ _ b4 b5 _ _) := ascii_of_N b in
  Ascii b4 b5 a0 a1 a2 a3 a4 a5.

Definition byte2 (b c : N) : ascii :=
  let '(Ascii b0 b1 b2 b3 _ _ _ _) := ascii_of_N b in
  let '(Ascii _ _ c2 c3 c4 c5 _ _) := ascii_of_N c in
  Ascii c2 c3 c4 c5 b0 b1 b2 b3.

Definition byte3 (c d : N) : ascii :=
  let '(Ascii c0 c1 _ _ _ _ _ _) := ascii_of_N c in
  let '(Ascii d0 d1 d2 d3 d4 d5 _ _) := ascii_of_N d in
  Ascii d0 d1 d2 d3 d4 d5 c0 c1.

Definition is_newline (c : ascii) : bool :=
  ((N_of_ascii c =? 10) || (N_of_ascii c =? 13))%N.

(** Line feeds and carriage returns are skipped wherever they stand. *)
Fixpoint strip_newlines (s : string) : string :=
  match s with
  | EmptyString => EmptyString
  | String c rest =>
      if is_newline c then strip_newlines rest else String c (strip_newlines rest)
  end.

(** Groups of four characters; padding may only end the last group. *)
Fixpoint decode_quanta (s : string) : option string :=
  match s with
  | EmptyString => Some EmptyString
  | String c0 (String c1 (String c2 (String c3 rest))) =>
      match decode_char c0, decode_char c1 with
      | Some a, Some b =>
          match decode_char c2 with
          | Some c =>
              match decode_char c3 with
              | Some d =>
                  match decode_quanta rest with
                  | Some out =>
                      Some (String (byte1 a b) (String (byte2 b c) (String (byte3 c d) out)))
                  | None => None
                  end
              | None =>
                  if Ascii.eqb c3 padChar
                     && match rest with EmptyString => true | _ => false end
                  then Some (String (byte1 a b) (String (byte2 b c) EmptyString))
                  else None
              end
          | None =>
              if Ascii.eqb c2 padChar && Ascii.eqb c3 padChar
                 && match rest with EmptyString => true | _ => false end
              then Some (String (byte1 a b) EmptyString)
              else None
          end
      | _, _ => None
      end
  | _ => None
  end.

(** [DecodeString], as far as B64Decode observes it: the decoded bytes, or
    nothing when the input is corrupt. *)
Definition DecodeString (s : string) : option string :=
  decode_quanta (strip_newlines s).

End base64.

(** "B64Encode": base64 encode input data. *)
Definition B64Encode (data : string) : string := base64.EncodeToString data.

(** "B64Decode": base64 decode input data. *)
Definition B64Decode (data : string) : string * option error :=
  match base64.DecodeString data with
  | None => (EmptyString, Some "illegal base64 data"%string)
  | Some b => (b, None)
  end.

(** The package strings, as far as Join and Split forward to it. *)
Module gostrings.

(** [strings.Join]: the elements with [sep] between them. *)
Fixpoint join (elems : list string) (sep : string) : string :=
  match elems with
  | [] => EmptyString
  | [x] => x
  | x :: rest => (x ++ sep ++ join rest sep)%string
  end.

Fixpoint drop (n : nat) (s : string) : string :=
  match n, s with
  | O, _ => s
  | S n', String _ rest => drop n' rest
  | S _, EmptyString => EmptyString
  end.

Fixpoint take (n : nat) (s : string) : string :=
  match n, s with
  | S n', String c rest => String c (take n' rest)
  | _, _ => EmptyString
  end.

(** What stands before and after the first instance of [sep] in [s]
    ([strings.Index], with the two slices [genSplit] takes around it). *)
Fixpoint cut (sep s : string) : option (string * string) :=
  if String.prefix sep s then Some (EmptyString, drop (String.length sep) s)
  else
    match s with
    | EmptyString => None
    | String c rest =>
        match cut sep rest with
        | Some (before, after) => Some (String c before, after)
        | None => None
        end
    end.

(** The loop of [genSplit] for a non-empty separator: cut at each instance
    in turn, the rest being the last element. *)
Fixpoint split_loop (n : nat) (s sep : string) : list string :=
  match n with
  | O => [s]
  | S n' =>
      match cut sep s with
      | Some (before, after) => before :: split_loop n' after sep
      | None => [s]
      end
  end.

(** The second byte a leading byte of UTF-8 accepts, with the length of
    the sequence; nothing for ASCII and for bytes that lead no sequence. *)
Definition lead (c : ascii) : option (nat * N * N) :=
  let n := N_of_ascii c in
  (if n <? 194 then None
   else if n <=? 223 then Some (2%nat, 128, 191)
   else if n =? 224 then Some (3%nat, 160, 191)
   else if n <=? 236 then Some (3%nat, 128, 191)
   else if n =? 237 then Some (3%nat, 128, 159)
   else if n <=? 239 then Some (3%nat, 128, 191)
   else if n =? 240 then Some (4%nat, 144, 191)
   else if n <=? 243 then Some (4%nat, 128, 191)
   else if n =? 244 then Some (4%nat, 128, 143)
   else None)%N.

Definition between (lo hi : N) (c : ascii) : bool :=
  ((lo <=? N_of_ascii c) && (N_of_ascii c <=? hi))%N.

(** The width [utf8.DecodeRuneInString] reports for the first character of
    a non-empty string: 1 for ASCII and for an invalid or truncated
    sequence. *)
Definition rune_size (s : string) : nat :=
  match s with
  | EmptyString => 0
  | String c0 r0 =>
      match lead c0 with
      | None => 1
      | Some (size, lo, hi) =>
          match r0 with
          | String c1 r1 =>
              if between lo hi c1 then
                if (size <=? 2)%nat then 2
                else
                  match r1 with
                  | String c2 r2 =>
                      if between 128 191 c2 then
                        if (size <=? 3)%nat then 3
                        else
                          match r2 with
                          | String c3 _ => if between 128 191 c3 then 4 else 1
                          | EmptyString => 1
                          end
                      else 1
                  | EmptyString => 1
                  end
              else 1
          | EmptyString => 1
          end
      end
  end%nat.

(** [explode]: one element per character of the string. *)
Fixpoint explode (n : nat) (s : string) : list string :=
  match n with
  | O => []
  | S n' =>
      match s with
      | EmptyString => []
      | _ => take (rune_size s) s :: explode n' (drop (rune_size s) s)
      end
  end.

(** [strings.Split]: [genSplit] with no limit on the number of elements. *)
Definition split (s sep : string) : list string :=
  match sep with
  | EmptyString => explode (String.length s) s
  | _ => split_loop (String.length s) s sep
  end.

End gostrings.

(** "Join": alias of strings.Join. *)
Definition Join (values : slice) (sep : string) : string :=
  gostrings.join (elems values) sep.

(** "Split": alias of strings.Split. *)
Definition Split (s sep : string) : slice :=
  mkSlice (gostrings.split s sep) [].

(** The world after [n] draws. *)
Definition advance_by (n : nat) (w : World) : World :=
  mkWorld (rand_draws w) (n + rand_pos w) (parse_log w).

(** The closure handed to [rand.Shuffle]:
    [values[i], values[j] = values[j], values[i]]. *)
Definition swap (i j : Z) (values : slice) : M slice :=
  vj <- index values j ;;
  vi <- index values i ;;
  ret (mkSlice (<[Z.to_nat j := vi]> (<[Z.to_nat i := vj]> (elems values)))
               (spare values)).

(** The loop of [rand.Shuffle]: for [i] from [n-1] down to 1, exchange the
    cell [i] with a cell drawn in [[0, i]]. *)
Fixpoint Shuffle_from (i : nat) (swap : Z -> Z -> slice -> M slice) (values : slice)
  : M slice :=
  match i with
  | O => ret values
  | S i' =>
      j <- Intn (Z.of_nat i + 1) ;;
      values' <- swap (Z.of_nat i) j values ;;
      Shuffle_from i' swap values'
  end.

Definition rand_Shuffle (n : Z) (swap : Z -> Z -> slice -> M slice) (values : slice)
  : M slice :=
  if n <? 0 then panic "invalid argument to Shuffle"
  else Shuffle_from (Z.to_nat (n - 1)) swap values.

(** "Shuffle": shuffle the input and returns. *)
Definition Shuffle (values : slice) : M slice :=
  rand_Shuffle (len values) swap values.

(** A directory entry, as far as ListFile reads it. *)
Record FileInfo : Type := mkFileInfo {
  Name : string;
  IsDir : bool
}.

Section Files.

(** [ioutil.ReadDir] on the file system of the run, and [path.Join]. *)
Variable ReadDir : string -> list FileInfo * option error.
Variable path_Join : string -> string -> string.

(** "ListFile": list all files in the path. *)
Definition ListFile (dirPath : string) : slice * option error :=
  let '(files, err) := ReadDir dirPath in
  match err with
  | Some e => (empty_slice, Some e)
  | None =>
      (fold_left
         (fun paths f =>
            if negb (IsDir f) then append paths (path_Join dirPath (Name f))
            else paths)
         files empty_slice,
       None)
  end.

End Files.

(** * Properties *)

(** ** Arithmetic and slices *)

Lemma wrap_in_range (z : Z) : GoInt.in_range z -> GoInt.wrap z = z.
Proof.
  unfold GoInt.in_range, GoInt.wrap, GoInt.min_int, GoInt.max_int.
  intros Hz. rewrite Z.mod_small; lia.
Qed.

Lemma wrap_bounds (z : Z) : GoInt.in_range (GoInt.wrap z).
Proof.
  unfold GoInt.in_range, GoInt.wrap, GoInt.min_int, GoInt.max_int.
  pose proof (Z.mod_pos_bound (z + 2 ^ 63) (2 ^ 64) ltac:(lia)). lia.
Qed.

Lemma len_nonneg (s : slice) : 0 <= len s.
Proof. unfold len. lia. Qed.

Lemma len_le_cap (s : slice) : len s <= cap s.
Proof. unfold len, cap. rewrite length_app. lia. Qed.

Lemma len_zero_iff (s : slice) : len s < 1 <-> elems s = [].
Proof.
  unfold len. destruct (elems s); simpl; split; intros; try done; lia.
Qed.

(** An index inside the window reads the element at that position. *)
Lemma index_in_bounds (s : slice) (i : Z) (w : World) :
  0 <= i < len s ->
  exists x, elems s !! Z.to_nat i = Some x /\ index s i w = Done x w.
Proof.
  intros Hi. unfold index.
  destruct (lookup_lt_is_Some_2 (elems s) (Z.to_nat i)) as [x Hx].
  { unfold len in Hi. lia. }
  exists x. split; [done|].
  replace ((0 <=? i) && (i <? len s)) with true by (symmetry; apply andb_true_iff; lia).
  by rewrite Hx.
Qed.

Lemma index_out_of_bounds (s : slice) (i : Z) (w : World) :
  i < 0 \/ len s <= i -> index s i w = Panic "index out of range".
Proof.
  intros Hi. unfold index.
  replace ((0 <=? i) && (i <? len s)) with false; [done|].
  symmetry. apply andb_false_iff. lia.
Qed.

(** A slice expression inside the window gives the sub-window. *)
Lemma reslice_in_bounds (s : slice) (lo hi : Z) (w : World) :
  0 <= lo <= hi -> hi <= len s ->
  exists r, reslice s lo hi w = Done r w /\
            elems r = take (Z.to_nat (hi - lo)) (drop (Z.to_nat lo) (elems s)) /\
            len r = hi - lo.
Proof.
  intros Hlo Hhi. unfold reslice.
  pose proof (len_le_cap s) as Hcap.
  replace ((0 <=? lo) && (lo <=? hi) && (hi <=? cap s)) with true
    by (symmetry; rewrite !andb_true_iff; lia).
  eexists. split; [reflexivity|]. simpl.
  assert (Helems : take (Z.to_nat (hi - lo)) (drop (Z.to_nat lo) (elems s ++ spare s))
                   = take (Z.to_nat (hi - lo)) (drop (Z.to_nat lo) (elems s))).
  { unfold len in Hhi. rewrite drop_app_le by lia.
    rewrite take_app_le; [done|]. rewrite length_drop. lia. }
  split; [exact Helems|].
  unfold len. simpl. rewrite Helems, length_take, length_drop.
  unfold len in Hhi. lia.
Qed.

Lemma reslice_inverted (s : slice) (lo hi : Z) (w : World) :
  hi < lo -> reslice s lo hi w = Panic "slice bounds out of range".
Proof.
  intros H. unfold reslice.
  replace ((0 <=? lo) && (lo <=? hi) && (hi <=? cap s)) with false; [done|].
  symmetry. rewrite !andb_false_iff. lia.
Qed.


Lemma Intn_positive (n : Z) (w : World) :
  0 < n ->
  Intn n w = Done (next_draw w mod n) (advance w) /\ 0 <= next_draw w mod n < n.
Proof.
  intros Hn. unfold Intn, next_draw, advance.
  replace (n <=? 0) with false by (symmetry; apply Z.leb_gt; lia).
  split; [done|]. apply Z.mod_pos_bound. lia.
Qed.

Lemma Intn_nonpositive (n : Z) (w : World) :
  n <= 0 -> Intn n w = Panic "invalid argument to Intn".
Proof.
  intros Hn. unfold Intn.
  by replace (n <=? 0) with true by (symmetry; apply Z.leb_le; lia).
Qed.

(** ** RoundRobin *)

(** Claim C3, amended: for a request number that is not negative,
    RoundRobin is the function [s[RequestNumber mod len(s)]] of the
    sequence and the request number alone (the world is left as it was):
    on the empty sequence it returns the error "values is empty", on a
    non-empty one it returns the element at that position without error,
    and the request numbers [0 .. len(s)-1] return the elements of [s] one
    after the other, each once. *)
Theorem RoundRobin_spec (td : callTemplateData) (values : slice) (w : World) :
  0 <= RequestNumber td ->
  match elems values with
  | [] => RoundRobin td values w = Done (EmptyString, Some "values is empty"%string) w
  | _ :: _ =>
      (exists x,
          elems values !! Z.to_nat (RequestNumber td `mod` len values) = Some x /\
          RoundRobin td values w = Done (x, None) w) /\
      (forall (i : nat) (x : string),
          elems values !! i = Some x ->
          RequestNumber td = Z.of_nat i ->
          RoundRobin td values w = Done (x, None) w)
  end.
Proof.
  intros Hreq. destruct (elems values) as [|v vs] eqn:Hvs.
  - unfold RoundRobin.
    replace (len values <? 1) with true; [done|].
    symmetry. apply Z.ltb_lt. apply len_zero_iff. done.
  - assert (Hlen : 1 <= len values) by (unfold len; rewrite Hvs; simpl; lia).
    assert (Hrun : exists x,
               elems values !! Z.to_nat (RequestNumber td `mod` len values) = Some x /\
               RoundRobin td values w = Done (x, None) w).
    { unfold RoundRobin, GoInt.rem.
      replace (len values <? 1) with false by (symmetry; apply Z.ltb_ge; lia).
      rewrite Z.rem_mod_nonneg by lia.
      destruct (index_in_bounds values (RequestNumber td `mod` len values) w)
        as [x [Hx Hi]]; [apply Z.mod_pos_bound; lia|].
      exists x. split; [done|].
      unfold bind. by rewrite Hi. }
    split; [rewrite <- Hvs; exact Hrun|].
    intros i x Hix Hi. destruct Hrun as [y [Hy Hr]].
    rewrite Hr. rewrite Hi in Hy.
    rewrite Z.mod_small in Hy.
    + rewrite Nat2Z.id, Hvs in Hy. congruence.
    + apply lookup_lt_Some in Hix. unfold len. rewrite Hvs. lia.
Qed.

Lemma RoundRobin_spec_witness :
  0 <= RequestNumber Sample.td /\
  RoundRobin Sample.td (Sample.strings ["a"; "b"; "c"]%string) Sample.w0
  = Done ("b"%string, None) Sample.w0.
Proof.
  assert (Hreq : 0 <= RequestNumber Sample.td) by (vm_compute; congruence).
  split; [exact Hreq|].
  destruct (RoundRobin_spec Sample.td (Sample.strings ["a"; "b"; "c"]%string)
              Sample.w0 Hreq) as [[x [Hx Hrun]] _].
  vm_compute in Hx. injection Hx as <-. exact Hrun.
Defined.

(** Claim C3 as stated fails for a negative request number: with
    [RequestNumber = -1] and the sequence [a, b], [-1 mod 2] designates
    [b], but [-1 % 2] is [-1] in Go and the access panics; no element is
    returned. *)
Lemma RoundRobin_negative_request_counterexample :
  let td := Sample.td_at (-1) in
  let s := Sample.strings ["a"; "b"]%string in
  elems s !! Z.to_nat (RequestNumber td `mod` len s) = Some "b"%string /\
  RoundRobin td s Sample.w0 = Panic "index out of range" /\
  RoundRobin td s Sample.w0 <> Done ("b"%string, None) Sample.w0.
Proof. vm_compute. repeat split; congruence. Qed.

(** Four consecutive request numbers walk through a sequence of three
    and come back to its first element. *)
Example RoundRobin_cycle :
  (fun i => RoundRobin (Sample.td_at i) (Sample.strings ["a"; "b"; "c"]%string) Sample.w0)
    <$> [0; 1; 2; 3]
  = (fun x => Done (x, None) Sample.w0) <$> ["a"; "b"; "c"; "a"]%string.
Proof. vm_compute. reflexivity. Qed.

(** The result depends on the call context through its request number
    only. *)
Lemma RoundRobin_request_number_only (td1 td2 : callTemplateData) (values : slice) :
  RequestNumber td1 = RequestNumber td2 ->
  RoundRobin td1 values = RoundRobin td2 values.
Proof. intros H. unfold RoundRobin. by rewrite H. Qed.

(** Claim C9: on a non-empty sequence, a negative request number whose
    remainder modulo the length is not zero gives a negative index
    [RequestNumber % len(values)], and the element access panics: the
    function returns neither an element nor an error. *)
Theorem RoundRobin_negative_request (td : callTemplateData) (values : slice) (w : World) :
  elems values <> [] ->
  RequestNumber td < 0 ->
  Z.rem (RequestNumber td) (len values) <> 0 ->
  GoInt.rem (RequestNumber td) (len values) < 0 /\
  RoundRobin td values w = Panic "index out of range".
Proof.
  intros Hne Hneg Hrem.
  assert (Hlen : 1 <= len values).
  { destruct (Z.lt_ge_cases (len values) 1) as [H|H]; [|lia].
    apply len_zero_iff in H. done. }
  assert (Hidx : GoInt.rem (RequestNumber td) (len values) < 0).
  { unfold GoInt.rem.
    pose proof (Z.rem_nonpos (RequestNumber td) (len values)) as Hsign.
    lia. }
  split; [exact Hidx|].
  unfold RoundRobin.
  replace (len values <? 1) with false by (symmetry; apply Z.ltb_ge; lia).
  unfold bind. rewrite index_out_of_bounds; [done|]. by left.
Qed.

Lemma RoundRobin_negative_request_witness :
  RoundRobin (Sample.td_at (-5)) (Sample.strings ["a"; "b"; "c"]%string) Sample.w0
  = Panic "index out of range".
Proof.
  apply (RoundRobin_negative_request (Sample.td_at (-5))
           (Sample.strings ["a"; "b"; "c"]%string) Sample.w0);
    vm_compute; congruence.
Defined.

(** ** RandomSliceK *)


(** Claim C5: for [k > 0], RandomSliceK returns the error
    "values must be longer than k" when [len(values) < k] and no error
    otherwise; when [len(values) = k] it returns [values] itself;
    otherwise the start is the value [rand.Intn(len(values)-k)] draws, it
    lies in [[0, len(values)-k)], every value of that interval is the
    start for some state of the random source, and the result is the
    window [[start, start+k)] of the input, of length exactly [k]. *)
Theorem RandomSliceK_spec (values : slice) (k : Z) (w : World) :
  slice_wf values ->
  0 < k <= GoInt.max_int ->
  (len values < k ->
     RandomSliceK values k w
     = Done (empty_slice, Some "values must be longer than k"%string) w) /\
  (len values = k -> RandomSliceK values k w = Done (values, None) w) /\
  (k < len values ->
     let start := next_draw w mod (len values - k) in
     0 <= start < len values - k /\
     exists r,
       RandomSliceK values k w = Done (r, None) (advance w) /\
       elems r = window (elems values) start k /\
       len r = k) /\
  (forall start, 0 <= start < len values - k ->
     exists w', next_draw w' mod (len values - k) = start).
Proof.
  intros Hwf Hk. unfold slice_wf in Hwf.
  pose proof (len_le_cap values) as Hcap.
  pose proof (len_nonneg values) as Hlen.
  repeat split.
  - intros Hlt. unfold RandomSliceK.
    by replace (len values <? k) with true by (symmetry; apply Z.ltb_lt; lia).
  - intros Heq. unfold RandomSliceK.
    replace (len values <? k) with false by (symmetry; apply Z.ltb_ge; lia).
    by replace (len values =? k) with true by (symmetry; apply Z.eqb_eq; lia).
  - apply Z.mod_pos_bound. lia.
  - apply Z.mod_pos_bound. lia.
  - destruct (Intn_positive (len values - k) w) as [Hdraw Hrange]; [lia|].
    set (start := next_draw w mod (len values - k)) in *.
    destruct (reslice_in_bounds values start (start + k) (advance w))
      as [r [Hr [Helems Hlenr]]]; [lia|lia|].
    exists r. unfold RandomSliceK, window.
    replace (len values <? k) with false by (symmetry; apply Z.ltb_ge; lia).
    replace (len values =? k) with false by (symmetry; apply Z.eqb_neq; lia).
    unfold GoInt.sub, GoInt.add, bind.
    rewrite (wrap_in_range (len values - k))
      by (unfold GoInt.in_range, GoInt.min_int, GoInt.max_int in *; lia).
    rewrite Hdraw.
    rewrite (wrap_in_range (start + k))
      by (unfold GoInt.in_range, GoInt.min_int, GoInt.max_int in *; lia).
    rewrite Hr. repeat split.
    + rewrite Helems. f_equal. f_equal. lia.
    + lia.
  - intros start Hstart.
    exists (mkWorld (fun _ => start) 0 []).
    unfold next_draw. simpl. apply Z.mod_small. lia.
Qed.

Lemma RandomSliceK_spec_witness :
  exists r,
    RandomSliceK (Sample.strings ["a"; "b"; "c"; "d"]%string) 2 (Sample.world_of 5 0)
    = Done (r, None) (advance (Sample.world_of 5 0)) /\
    elems r = ["b"; "c"]%string.
Proof.
  destruct (RandomSliceK_spec (Sample.strings ["a"; "b"; "c"; "d"]%string) 2
              (Sample.world_of 5 0)) as (_ & _ & Hwin & _).
  - vm_compute. congruence.
  - vm_compute. split; congruence.
  - destruct Hwin as [_ [r [Hrun [Helems _]]]]; [vm_compute; reflexivity|].
    exists r. split; [exact Hrun|]. rewrite Helems. reflexivity.
Defined.

(** Claim C10: for a negative [k] neither guard of RandomSliceK fires and
    the call panics instead of returning an error.  Whenever
    [rand.Intn(len(values)-k)] returns a start, the bounds satisfy
    [end = start + k < start] and the slice expression is out of range;
    it returns one unless [len(values) - k] exceeds the largest [int], in
    which case the subtraction wraps to a negative number and [rand.Intn]
    itself panics. *)
Theorem RandomSliceK_negative_k (values : slice) (k : Z) (w : World) :
  slice_wf values ->
  GoInt.min_int <= k < 0 ->
  (len values <? k) = false /\
  (len values =? k) = false /\
  (exists msg, RandomSliceK values k w = Panic msg) /\
  (forall start w',
      Intn (GoInt.sub (len values) k) w = Done start w' ->
      GoInt.add start k = start + k /\
      start + k < start /\
      reslice values start (GoInt.add start k) w' = Panic "slice bounds out of range") /\
  (len values - k <= GoInt.max_int ->
   exists start w', Intn (GoInt.sub (len values) k) w = Done start w').
Proof.
  intros Hwf Hk. unfold slice_wf in Hwf.
  pose proof (len_le_cap values) as Hcap.
  pose proof (len_nonneg values) as Hlen.
  assert (Hg1 : (len values <? k) = false) by (apply Z.ltb_ge; lia).
  assert (Hg2 : (len values =? k) = false) by (apply Z.eqb_neq; lia).
  assert (Hbounds : forall start w',
             Intn (GoInt.sub (len values) k) w = Done start w' ->
             GoInt.add start k = start + k /\
             start + k < start /\
             reslice values start (GoInt.add start k) w'
             = Panic "slice bounds out of range").
  { intros start w' Hdraw.
    destruct (Z_le_gt_dec (GoInt.sub (len values) k) 0) as [Hn|Hn].
    { rewrite Intn_nonpositive in Hdraw by done. discriminate. }
    destruct (Intn_positive (GoInt.sub (len values) k) w) as [Hrun Hrange]; [lia|].
    rewrite Hrun in Hdraw. injection Hdraw as <- <-.
    pose proof (wrap_bounds (len values - k)) as Hw.
    unfold GoInt.sub in *.
    set (start := next_draw w mod GoInt.wrap (len values - k)) in *.
    assert (Hadd : GoInt.add start k = start + k).
    { unfold GoInt.add. apply wrap_in_range.
      unfold GoInt.in_range, GoInt.min_int, GoInt.max_int in *. lia. }
    rewrite Hadd. repeat split; [lia|].
    apply reslice_inverted. lia. }
  split; [exact Hg1|]. split; [exact Hg2|].
  split; [|split; [exact Hbounds|]].
  - unfold RandomSliceK. rewrite Hg1, Hg2. unfold bind.
    destruct (Intn (GoInt.sub (len values) k) w) as [start w'| msg |] eqn:Hdraw.
    + destruct (Hbounds start w' eq_refl) as (_ & _ & Hpanic).
      rewrite Hpanic. by eexists.
    + by eexists.
    + unfold Intn in Hdraw. destruct (_ <=? 0); discriminate.
  - intros Hfit. unfold GoInt.sub.
    rewrite wrap_in_range
      by (unfold GoInt.in_range, GoInt.min_int, GoInt.max_int in *; lia).
    destruct (Intn_positive (len values - k) w) as [Hrun _]; [lia|].
    rewrite Hrun. by do 2 eexists.
Qed.

Lemma RandomSliceK_negative_k_witness :
  exists msg,
    RandomSliceK (Sample.strings ["a"; "b"; "c"]%string) (-1) Sample.w0 = Panic msg.
Proof.
  destruct (RandomSliceK_negative_k (Sample.strings ["a"; "b"; "c"]%string) (-1)
              Sample.w0) as (_ & _ & Hpanic & _).
  - vm_compute. congruence.
  - vm_compute. split; congruence.
  - exact Hpanic.
Defined.

(** At the smallest [int] the subtraction [len(values) - k] wraps and the
    panic comes from [rand.Intn]. *)
Lemma RandomSliceK_min_int :
  RandomSliceK (Sample.strings ["a"]%string) GoInt.min_int Sample.w0
  = Panic "invalid argument to Intn".
Proof. vm_compute. reflexivity. Qed.

(** ** RandomSlice *)


(** Claim C6: RandomSlice returns the error "values is empty" on the empty
    sequence and no error on any other; on a non-empty sequence the two
    indices drawn lie in [[0, len)], every pair of that square is drawn for
    some state of the random source, and with the bounds adjusted as the
    claim says the result is the window [[start, end)] of the input, which
    lies inside the input and is never empty. *)
Theorem RandomSlice_spec (values : slice) (w : World) :
  slice_wf values ->
  match elems values with
  | [] => RandomSlice values w = Done (empty_slice, Some "values is empty"%string) w
  | _ :: _ =>
      let n := len values in
      let a := next_draw w mod n in
      let b := next_draw (advance w) mod n in
      let '(start, end_) := adjusted_bounds a b in
      (0 <= a < n /\ 0 <= b < n) /\
      (0 <= start /\ start < end_ /\ end_ <= n) /\
      (exists r,
          RandomSlice values w = Done (r, None) (advance (advance w)) /\
          elems r = window (elems values) start (end_ - start) /\
          elems r <> []) /\
      (forall a' b', 0 <= a' < n -> 0 <= b' < n ->
         exists w', next_draw w' mod n = a' /\ next_draw (advance w') mod n = b')
  end.
Proof.
  intros Hwf. unfold slice_wf in Hwf.
  pose proof (len_le_cap values) as Hcap.
  destruct (elems values) as [|v vs] eqn:Hvs.
  { unfold RandomSlice.
    replace (len values <? 1) with true; [done|].
    symmetry. apply Z.ltb_lt, len_zero_iff. done. }
  assert (Hlen : 1 <= len values) by (unfold len; rewrite Hvs; simpl; lia).
  cbv zeta.
  destruct (Intn_positive (len values) w) as [Hda Ha]; [lia|].
  destruct (Intn_positive (len values) (advance w)) as [Hdb Hb]; [lia|].
  set (a := next_draw w mod len values) in *.
  set (b := next_draw (advance w) mod len values) in *.
  assert (Hrun : forall start end_,
             adjusted_bounds a b = (start, end_) ->
             (0 <= start /\ start < end_ /\ end_ <= len values) /\
             RandomSlice values w
             = (r <- reslice values start end_ ;; ret (r, None)) (advance (advance w))).
  { intros start end_ Hadj. unfold RandomSlice, adjusted_bounds in *.
    replace (len values <? 1) with false by (symmetry; apply Z.ltb_ge; lia).
    unfold bind at 1. rewrite Hda. unfold bind at 1. rewrite Hdb.
    unfold GoInt.add, GoInt.sub.
    rewrite (wrap_in_range (b + 1))
      by (unfold GoInt.in_range, GoInt.min_int, GoInt.max_int in *; lia).
    rewrite (wrap_in_range (a - 1))
      by (unfold GoInt.in_range, GoInt.min_int, GoInt.max_int in *; lia).
    destruct (a >? b) eqn:Hgt; [|destruct (a =? b) eqn:Heq; [destruct (a =? 0) eqn:H0|]];
      injection Hadj as <- <-; (split; [lia|reflexivity]). }
  destruct (adjusted_bounds a b) as [start end_] eqn:Hadj.
  destruct (Hrun start end_ eq_refl) as [Hbounds Hcode].
  split; [done|]. split; [done|]. split.
  - destruct (reslice_in_bounds values start end_ (advance (advance w)))
      as [r [Hr [Helems Hlenr]]]; [lia|lia|].
    exists r. rewrite Hcode. unfold bind. rewrite Hr.
    split; [done|]. rewrite <- Hvs. split; [exact Helems|].
    intros Hnil. unfold len in Hlenr. rewrite Hnil in Hlenr. simpl in Hlenr. lia.
  - intros a' b' Ha' Hb'.
    exists (mkWorld (fun i => match i with O => a' | _ => b' end) 0 []).
    unfold next_draw, advance. simpl. split; apply Z.mod_small; lia.
Qed.

Lemma RandomSlice_spec_witness :
  exists r,
    RandomSlice (Sample.strings ["a"; "b"; "c"; "d"]%string) (Sample.world_of 2 2)
    = Done (r, None) (advance (advance (Sample.world_of 2 2))) /\
    elems r = ["b"]%string.
Proof.
  pose proof (RandomSlice_spec (Sample.strings ["a"; "b"; "c"; "d"]%string)
                (Sample.world_of 2 2)) as Hspec.
  assert (Hwf : slice_wf (Sample.strings ["a"; "b"; "c"; "d"]%string))
    by (vm_compute; congruence).
  specialize (Hspec Hwf). cbn in Hspec.
  destruct Hspec as (_ & _ & [r [Hrun [Helems _]]] & _).
  exists r. split; [exact Hrun|]. rewrite Helems. reflexivity.
Defined.

(** ** Range *)


(** The guard: nothing is generated when [step <= 0] or [start >= step]. *)
Lemma Range_guard (fuel : nat) (start end_ step : Z) (w : World) :
  step <= 0 \/ start >= step ->
  Range fuel start end_ step w = Done empty_slice w.
Proof.
  intros H. unfold Range.
  replace ((step <=? 0) || (start >=? step)) with true; [done|].
  symmetry. apply orb_true_iff. lia.
Qed.

Lemma progression_step (start step : Z) (n : nat) :
  (fun i => start + i * step) <$> seqZ 0 (Z.of_nat (S n))
  = start :: ((fun i => (start + step) + i * step) <$> seqZ 0 (Z.of_nat n)).
Proof.
  rewrite seqZ_cons by lia. rewrite fmap_cons. f_equal; [lia|].
  replace (Z.pred (Z.of_nat (S n))) with (Z.of_nat n) by lia.
  replace (Z.succ 0) with (1 + 0) by lia.
  rewrite <- fmap_add_seqZ, <- list_fmap_compose.
  apply list_fmap_ext. intros _ i _. simpl. lia.
Qed.

(** The loop, when no addition overflows: [n] iterations append the
    decimal forms of [start, start+step, ..., start+(n-1)*step]. *)
Lemma Range_loop_run (end_ step : Z) (n : nat) :
  0 < step ->
  forall (fuel : nat) (start : Z) (res : slice) (w : World),
    (n < fuel)%nat ->
    GoInt.min_int <= start ->
    start + Z.of_nat n * step <= GoInt.max_int ->
    end_ <= start + Z.of_nat n * step ->
    ((0 < n)%nat -> start + (Z.of_nat n - 1) * step < end_) ->
    exists r,
      Range_loop fuel start end_ step res w = Done r w /\
      elems r = elems res
                ++ (Itoa <$> ((fun i => start + i * step) <$> seqZ 0 (Z.of_nat n))).
Proof.
  intros Hstep. induction n as [|n IH]; intros fuel start res w Hfuel Hmin Hmax Hend Hlast.
  - destruct fuel as [|fuel]; [lia|]. simpl.
    replace (start <? end_) with false by (symmetry; apply Z.ltb_ge; lia).
    exists res. split; [done|]. by rewrite app_nil_r.
  - destruct fuel as [|fuel]; [lia|]. simpl Range_loop.
    assert (Hlt : start < end_) by (specialize (Hlast ltac:(lia)); nia).
    replace (start <? end_) with true by (symmetry; apply Z.ltb_lt; lia).
    unfold GoInt.add. rewrite wrap_in_range by (unfold GoInt.in_range; nia).
    destruct (IH fuel (start + step) (append res (Itoa start)) w) as [r [Hr Helems]];
      [lia | lia | lia | lia | intros Hn; specialize (Hlast ltac:(lia)); lia |].
    exists r. split; [exact Hr|].
    rewrite Helems, progression_step. simpl. by rewrite <- app_assoc.
Qed.

(** Past the guard, when the capacity [(end-start)/step+1] is not negative
    and no intermediate value leaves the range of [int], Range returns the
    decimal forms of the progression. *)
Lemma Range_progression (start end_ step : Z) (fuel : nat) (w : World) :
  GoInt.in_range start -> GoInt.in_range end_ -> GoInt.in_range step ->
  0 < step -> start < step ->
  GoInt.min_int <= end_ - start < GoInt.max_int ->
  - 2 * step < end_ - start ->
  end_ + step <= GoInt.max_int ->
  (Z.to_nat ((end_ - start + step - 1) `div` step) < fuel)%nat ->
  exists r,
    Range fuel start end_ step w = Done r w /\
    elems r = Itoa <$> progression start end_ step.
Proof.
  intros Hrs Hre Hrst Hstep Hstart Hdiff Hcap Hend Hfuel.
  unfold GoInt.in_range, GoInt.min_int, GoInt.max_int in *.
  unfold Range.
  replace ((step <=? 0) || (start >=? step)) with false
    by (symmetry; apply orb_false_iff; lia).
  unfold GoInt.sub. rewrite (wrap_in_range (end_ - start))
    by (unfold GoInt.in_range, GoInt.min_int, GoInt.max_int; lia).
  assert (Hq : -1 <= (end_ - start) `quot` step < 2 ^ 63 - 1).
  { destruct (Z.le_gt_cases 0 (end_ - start)) as [Hpos|Hneg].
    - pose proof (Z.quot_pos (end_ - start) step Hpos Hstep).
      assert ((end_ - start) `quot` step <= end_ - start)
        by (apply Z.quot_le_upper_bound; nia).
      lia.
    - assert (Hopp : (end_ - start) `quot` step = - ((start - end_) `quot` step)).
      { rewrite <- Z.quot_opp_l by lia. f_equal. lia. }
      pose proof (Z.quot_pos (start - end_) step ltac:(lia) Hstep).
      assert ((start - end_) `quot` step < 2)
        by (apply Z.quot_lt_upper_bound; lia).
      lia. }
  unfold GoInt.quot. rewrite (wrap_in_range (_ `quot` _))
    by (unfold GoInt.in_range, GoInt.min_int, GoInt.max_int; lia).
  unfold GoInt.add. rewrite (wrap_in_range (_ + 1))
    by (unfold GoInt.in_range, GoInt.min_int, GoInt.max_int; lia).
  unfold bind, make0.
  replace (_ <? 0) with false by (symmetry; apply Z.ltb_ge; lia).
  unfold ret.
  set (res := mkSlice [] _).
  set (q := (end_ - start + step - 1) `div` step) in *.
  pose proof (Z.div_mod (end_ - start + step - 1) step ltac:(lia)) as Hdm.
  pose proof (Z.mod_pos_bound (end_ - start + step - 1) step Hstep) as Hmod.
  fold q in Hdm.
  assert (Hupper : end_ <= start + q * step <= end_ + step - 1) by lia.
  assert (Hlower : start + (q - 1) * step < end_) by lia.
  destruct (Z.le_gt_cases q 0) as [Hq0|Hq0].
  - assert (Hle : end_ <= start) by nia.
    destruct (Range_loop_run end_ step 0 Hstep fuel start res w)
      as [r [Hr Helems]];
      [lia | unfold GoInt.min_int; lia | unfold GoInt.max_int; lia | lia | lia |].
    exists r. split; [exact Hr|]. rewrite Helems. simpl.
    unfold progression. fold q. by rewrite (seqZ_nil 0 q) by lia.
  - destruct (Range_loop_run end_ step (Z.to_nat q) Hstep fuel start res w)
      as [r [Hr Helems]];
      [lia | unfold GoInt.min_int; lia | unfold GoInt.max_int; rewrite Z2Nat.id by lia; lia
       | rewrite Z2Nat.id by lia; lia | intros _; rewrite Z2Nat.id by lia; lia |].
    exists r. split; [exact Hr|]. rewrite Helems. simpl.
    unfold progression. fold q. by rewrite Z2Nat.id by lia.
Qed.

(** [progression] holds exactly the values [start + i*step] below [end_]. *)
Lemma progression_elem (start end_ step x : Z) :
  0 < step ->
  x ∈ progression start end_ step <->
  exists i, 0 <= i /\ x = start + i * step /\ x < end_.
Proof.
  intros Hstep. unfold progression.
  pose proof (Z.div_mod (end_ - start + step - 1) step ltac:(lia)) as Hdm.
  pose proof (Z.mod_pos_bound (end_ - start + step - 1) step Hstep) as Hmod.
  set (q := (end_ - start + step - 1) `div` step) in *.
  rewrite list_elem_of_fmap. split.
  - intros [i [-> Hi]]. apply elem_of_seqZ in Hi. exists i. nia.
  - intros [i (Hi & -> & Hlt)]. exists i. split; [done|].
    apply elem_of_seqZ. nia.
Qed.

Example Range_sample :
  exists r,
    Range 5 (-3) 5 2 Sample.w0 = Done r Sample.w0 /\
    elems r = ["-3"; "-1"; "1"; "3"]%string.
Proof.
  destruct (Range_progression (-3) 5 2 5 Sample.w0) as [r [Hr Helems]];
    try (vm_compute; (lia || (split; congruence) || congruence)).
  exists r. split; [exact Hr|]. rewrite Helems. vm_compute. reflexivity.
Defined.

(** Claim C4 fails on the code when [end] lies two steps or more below
    [start]: past the guard, the capacity [(end-start)/step+1] handed to
    [make] is negative and the call panics, where the claim has the empty
    progression returned.  Here [Range 0 (-10) 1] asks for capacity [-9]. *)
Theorem Range_negative_capacity_panics (fuel : nat) (w : World) :
  progression 0 (-10) 1 = [] /\
  GoInt.add (GoInt.quot (GoInt.sub (-10) 0) 1) 1 = -9 /\
  Range fuel 0 (-10) 1 w = Panic "makeslice: cap out of range".
Proof. repeat split. Qed.

Lemma wrap_even (z : Z) : Z.even z = true -> Z.even (GoInt.wrap z) = true.
Proof.
  intros Hz. unfold GoInt.wrap.
  pose proof (Z.div_mod (z + 2 ^ 63) (2 ^ 64) ltac:(lia)) as Hdm.
  replace ((z + 2 ^ 63) `mod` 2 ^ 64 - 2 ^ 63)
    with (z - 2 * (2 ^ 63 * ((z + 2 ^ 63) `div` 2 ^ 64))) by lia.
  rewrite Z.even_sub, Hz, Z.even_mul. reflexivity.
Qed.

Lemma Range_loop_even_never_ends (fuel : nat) :
  forall (start : Z) (res : slice) (w : World),
    GoInt.in_range start -> Z.even start = true ->
    Range_loop fuel start GoInt.max_int (GoInt.max_int - 1) res w = OutOfFuel.
Proof.
  induction fuel as [|fuel IH]; intros start res w Hrange Heven; [done|].
  simpl.
  assert (Hne : start <> GoInt.max_int).
  { intros ->. vm_compute in Heven. discriminate. }
  replace (start <? GoInt.max_int) with true
    by (symmetry; apply Z.ltb_lt; unfold GoInt.in_range in Hrange; lia).
  apply IH.
  - apply wrap_bounds.
  - apply wrap_even. rewrite Z.even_add, Heven. reflexivity.
Qed.

(** When an addition overflows the loop may never end:
    [Range 0 MaxInt (MaxInt-1)] passes the guard and asks for capacity 2,
    but the running value wraps around and only takes even values, so it
    never reaches the odd bound; no amount of fuel yields a result. *)
Lemma Range_overflow_never_returns (fuel : nat) (w : World) :
  Range fuel 0 GoInt.max_int (GoInt.max_int - 1) w = OutOfFuel.
Proof.
  unfold Range.
  replace ((GoInt.max_int - 1 <=? 0) || (0 >=? GoInt.max_int - 1)) with false
    by (vm_compute; reflexivity).
  replace (GoInt.add (GoInt.quot (GoInt.sub GoInt.max_int 0) (GoInt.max_int - 1)) 1)
    with 2 by (vm_compute; reflexivity).
  unfold bind. simpl.
  apply Range_loop_even_never_ends; [vm_compute; split; congruence | reflexivity].
Qed.

(** ** The call context builder *)

(** Claim C7, amended: the builder returns a context for every descriptor,
    worker and request number; when the generation of the identifier
    fails, the error is dropped and the UUID field holds the text of the
    nil UUID, 36 characters of zeros and dashes, not an empty value. *)
Theorem newCallTemplateData_uuid_failure (now : Time) (mtd : MethodDescriptor)
    (workerID : string) (reqNum : Z) :
  newCallTemplateData now None mtd workerID reqNum
  = {| WorkerID := workerID;
       RequestNumber := reqNum;
       FullyQualifiedName := GetFullyQualifiedName mtd;
       MethodName := GetName mtd;
       ServiceName := GetServiceName mtd;
       InputName := GetInputTypeName mtd;
       OutputName := GetOutputTypeName mtd;
       IsClientStreaming := GetIsClientStreaming mtd;
       IsServerStreaming := GetIsServerStreaming mtd;
       Timestamp := Format_RFC3339 now;
       TimestampUnix := Unix now;
       TimestampUnixMilli := GoInt.quot (UnixNano now) 1000000;
       TimestampUnixNano := UnixNano now;
       UUID := "00000000-0000-0000-0000-000000000000" |}.
Proof. reflexivity. Qed.

(** Claim C7 as stated fails: after a failed generation the UUID field is
    not empty. *)
Lemma newCallTemplateData_uuid_not_empty :
  uuid.NewRandom None = (uuid.Nil, Some "uuid: random read failed"%string) /\
  UUID (newCallTemplateData Sample.now None Sample.mtd "w1" 7) <> EmptyString /\
  String.length (UUID (newCallTemplateData Sample.now None Sample.mtd "w1" 7)) = 36%nat.
Proof. vm_compute. repeat split; congruence. Qed.

(** Whatever the random reader delivers, the UUID field is not empty. *)
Lemma newCallTemplateData_uuid_never_empty (now : Time) (entropy : option (list Z))
    (mtd : MethodDescriptor) (workerID : string) (reqNum : Z) :
  UUID (newCallTemplateData now entropy mtd workerID reqNum) <> EmptyString.
Proof.
  unfold newCallTemplateData.
  destruct (uuid.NewRandom entropy) as [u e]. simpl. unfold uuid.String.
  destruct (uuid.encodeHex (take 4 u)); discriminate.
Qed.

(** ** The rendering entry points *)

Section RenderProperties.

Context {engine : TemplateEngine} {json : JSONDecoder}.
Variable fuel : nat.

Lemma nonempty_length (s : string) :
  s <> EmptyString -> (0 <? Z.of_nat (String.length s)) = true.
Proof. destruct s; [done|]. intros _. simpl. apply Z.ltb_lt. lia. Qed.

(** Every call of [execute] goes through the parser. *)
Lemma execute_parse_failure (td : callTemplateData) (data : string) (e : error)
    (w : World) :
  template_Parse (funcs fuel td) data = inr e ->
  execute fuel td data w = Panic e.
Proof. intros H. unfold execute, bind, Parse. by rewrite H. Qed.

Lemma execute_parse_success (td : callTemplateData) (data : string) (t : Template)
    (w : World) :
  template_Parse (funcs fuel td) data = inl t ->
  execute fuel td data w = template_Execute t td (logged w data).
Proof. intros H. unfold execute, bind, Parse. by rewrite H. Qed.

(** A template that does not parse makes [executeData] panic. *)
Lemma executeData_parse_failure (td : callTemplateData) (data : string) (e : error)
    (w : World) :
  data <> EmptyString ->
  template_Parse (funcs fuel td) data = inr e ->
  executeData fuel td data w = Panic e.
Proof.
  intros Hne H. unfold executeData. rewrite nonempty_length by done.
  unfold bind. by rewrite (execute_parse_failure _ _ e).
Qed.

(** A template that parses is rendered, and the literal text stands in
    for the output when the execution returns an error; the error
    returned is nil in both cases. *)
Lemma executeData_parsed (td : callTemplateData) (data : string) (t : Template)
    (tpl : bytes) (err : option error) (w w' : World) :
  data <> EmptyString ->
  template_Parse (funcs fuel td) data = inl t ->
  template_Execute t td (logged w data) = Done (tpl, err) w' ->
  executeData fuel td data w
  = Done (match err with None => tpl | Some _ => bytes_of_string data end, None) w'.
Proof.
  intros Hne Hp He. unfold executeData. rewrite nonempty_length by done.
  unfold bind. rewrite (execute_parse_success _ _ t) by done. by rewrite He.
Qed.

(** Claim C8: on the empty template both entry points return at once,
    the empty byte sequence and the empty map, with a nil error; the
    world is left as it was, so nothing was handed to the parser. *)
Theorem empty_template_fast_path (td : callTemplateData) (w : World) :
  executeData fuel td EmptyString w = Done ([], None) w /\
  executeMetadata fuel td EmptyString w = Done (Some ∅, None) w.
Proof. split; reflexivity. Qed.

(** Claim C2, amended: for a non-empty metadata template that parses,
    the bytes handed to the JSON decoder are the rendered output when
    the execution succeeds and the literal template text when it returns
    an error; [executeMetadata] returns an error exactly when the decoder
    rejects these bytes, and the decoded map otherwise. *)
Theorem executeMetadata_spec (td : callTemplateData) (metadata : string)
    (t : Template) (tpl : bytes) (err : option error) (w w' : World) :
  metadata <> EmptyString ->
  template_Parse (funcs fuel td) metadata = inl t ->
  template_Execute t td (logged w metadata) = Done (tpl, err) w' ->
  let input := match err with None => tpl | Some _ => bytes_of_string metadata end in
  executeMetadata fuel td metadata w
  = match json_Unmarshal input ∅ with
    | (mdMap, None) => Done (Some mdMap, None) w'
    | (_, Some e) => Done (None, Some e) w'
    end.
Proof.
  intros Hne Hp He. unfold executeMetadata. rewrite nonempty_length by done.
  unfold bind. rewrite (execute_parse_success _ _ t) by done. rewrite He.
  cbv zeta.
  destruct (json_Unmarshal _ ∅) as [m [e|]]; reflexivity.
Qed.

End RenderProperties.

(** ** The entry points on concrete templates *)


(** Claim C1 fails on the code for a template that does not parse: the
    parser rejects the unclosed action, [template.Must] panics inside
    [execute], and [executeData] panics with it instead of returning the
    literal bytes with a nil error. *)
Theorem executeData_unclosed_action_panics (fuel : nat) (td : callTemplateData)
    (w : World) :
  MiniTemplate.Parse (funcs fuel td) "{{" = inr "unclosed action"%string /\
  Run.executeData fuel td "{{" w = Panic "unclosed action" /\
  Run.executeData fuel td "{{" w <> Done (bytes_of_string "{{", None) (logged w "{{").
Proof. repeat split. discriminate. Qed.

(** The tolerated case: the template parses, RandomInt rejects its
    arguments, the execution returns the error, and the literal text is the
    payload. *)
Example executeData_execution_error_falls_back :
  (exists tpl w',
      Run.execute 1 Sample.td "id-{{RandomInt 5 1}}" Sample.w0
      = Done (tpl, Some "error calling RandomInt: m must > n"%string) w') /\
  Run.executeData 1 Sample.td "id-{{RandomInt 5 1}}" Sample.w0
  = Done (bytes_of_string "id-{{RandomInt 5 1}}", None)
         (logged Sample.w0 "id-{{RandomInt 5 1}}").
Proof. split; [eexists _, _|]; vm_compute; reflexivity. Qed.

Example executeData_renders :
  Run.executeData 5 Sample.td "{{.WorkerID}}/{{.RequestNumber}}/{{Range 0 3 1}}" Sample.w0
  = Done (bytes_of_string "w1/7/[0 1 2]", None)
         (logged Sample.w0 "{{.WorkerID}}/{{.RequestNumber}}/{{Range 0 3 1}}").
Proof. vm_compute. reflexivity. Qed.

Lemma executeMetadata_spec_witness :
  Run.executeMetadata 1 Sample.td (Sample.json_object "k" "{{.WorkerID}}") Sample.w0
  = Done (Some {[ "k"%string := "w1"%string ]}, None)
         (logged Sample.w0 (Sample.json_object "k" "{{.WorkerID}}")).
Proof.
  unfold Run.executeMetadata.
  eapply eq_trans.
  - eapply (@executeMetadata_spec MiniTemplate.engine MiniJSON.decoder 1 Sample.td
              (Sample.json_object "k" "{{.WorkerID}}") _ _ _ Sample.w0).
    + discriminate.
    + reflexivity.
    + vm_compute. reflexivity.
  - vm_compute. reflexivity.
Defined.

(** Claim C2 as stated fails when the execution of the template fails and
    the literal text is itself a JSON object: RandomInt rejects its
    arguments, the execution returns the error, and [executeMetadata]
    returns no error and a map whose value is the literal template text. *)
Lemma executeMetadata_literal_fallback_counterexample :
  let metadata := Sample.json_object "a" "{{RandomInt 5 1}}" in
  (exists tpl w',
      Run.execute 1 Sample.td metadata Sample.w0
      = Done (tpl, Some "error calling RandomInt: m must > n"%string) w') /\
  Run.executeMetadata 1 Sample.td metadata Sample.w0
  = Done (Some {[ "a"%string := "{{RandomInt 5 1}}"%string ]}, None)
         (logged Sample.w0 metadata).
Proof. split; [eexists _, _|]; vm_compute; reflexivity. Qed.

(** Validation failures are returned: the text is rendered as it is and the
    decoder rejects it. *)
Example executeMetadata_not_json :
  exists e,
    Run.executeMetadata 1 Sample.td "not-json" Sample.w0
    = Done (None, Some e) (logged Sample.w0 "not-json").
Proof. eexists. vm_compute. reflexivity. Qed.

(** * Properties of the rest of the function table *)

(** ** RandomInt and RandomChoice *)

(** RandomInt returns an error, draws nothing and never panics exactly on
    the other arguments: [n < 0] or [m <= n] (which covers [m < 1]). *)
Theorem RandomInt_invalid (n m : Z) (w : World) :
  n < 0 \/ m <= n ->
  exists e, RandomInt n m w = Done (EmptyString, Some e) w.
Proof.
  intros Hbad. unfold RandomInt.
  destruct ((n <? 0) || (m <? 1)) eqn:Hg1; [by eexists|].
  apply orb_false_iff in Hg1 as [Hn Hm].
  apply Z.ltb_ge in Hn. apply Z.ltb_ge in Hm.
  replace (m <=? n) with true by (symmetry; apply Z.leb_le; lia).
  by eexists.
Qed.

Lemma RandomInt_invalid_witness :
  exists e, RandomInt 5 1 Sample.w0 = Done (EmptyString, Some e) Sample.w0.
Proof. apply RandomInt_invalid. right. lia. Defined.

(** RandomChoice returns the error "values is empty" on the empty sequence;
    on any other it consumes one draw and returns, without error and
    without panic, the element at position [draw mod len(values)], which
    is a member of the sequence. *)
Theorem RandomChoice_spec (values : slice) (w : World) :
  match elems values with
  | [] => RandomChoice values w = Done (EmptyString, Some "values is empty"%string) w
  | _ :: _ =>
      exists x,
        elems values !! Z.to_nat (next_draw w mod len values) = Some x /\
        x ∈ elems values /\
        RandomChoice values w = Done (x, None) (advance w)
  end.
Proof.
  destruct (elems values) as [|v vs] eqn:Hvs.
  - unfold RandomChoice.
    replace (len values <? 1) with true; [done|].
    symmetry. apply Z.ltb_lt, len_zero_iff. done.
  - assert (Hlen : 1 <= len values) by (unfold len; rewrite Hvs; simpl; lia).
    destruct (Intn_positive (len values) w) as [Hdraw Hrange]; [lia|].
    destruct (index_in_bounds values (next_draw w mod len values) (advance w))
      as [x [Hx Hi]]; [lia|].
    exists x. rewrite <- Hvs. split; [exact Hx|].
    split; [by eapply list_elem_of_lookup_2|].
    unfold RandomChoice.
    replace (len values <? 1) with false by (symmetry; apply Z.ltb_ge; lia).
    unfold bind. by rewrite Hdraw, Hi.
Qed.

(** ** ToInt and the decimal forms *)

Lemma digits_of_uint_acc (d : Decimal.uint) :
  forall p : positive,
    strconv.digits (NilEmpty.string_of_uint d) (Z.pos p)
    = Some (Z.pos (Pos.of_uint_acc d p)).
Proof.
  induction d; intros p; simpl; [done|..].
  all: rewrite <- IHd; f_equal; unfold strconv.digit_value; cbn; lia.
Qed.

Lemma digits_of_uint (d : Decimal.uint) :
  strconv.digits (NilEmpty.string_of_uint d) 0 = Some (Z.of_N (Pos.of_uint d)).
Proof.
  induction d; simpl; [done|exact IHd|..].
  all: rewrite <- digits_of_uint_acc; f_equal.
Qed.

Lemma digits_of_positive (p : positive) :
  strconv.digits (NilEmpty.string_of_uint (Pos.to_uint p)) 0 = Some (Z.pos p).
Proof. by rewrite digits_of_uint, DecimalPos.Unsigned.of_to. Qed.

(** The decimal form of a positive number starts with a digit. *)
Lemma string_of_positive (p : positive) :
  exists c rest,
    NilEmpty.string_of_uint (Pos.to_uint p) = String c rest /\
    strconv.is_digit c = true.
Proof.
  pose proof (DecimalPos.Unsigned.to_uint_nonnil p) as Hnil.
  destruct (Pos.to_uint p); [done|..]; simpl; by eexists _, _.
Qed.

Lemma digit_not_sign (c : ascii) :
  strconv.is_digit c = true -> Ascii.eqb c "-" = false /\ Ascii.eqb c "+" = false.
Proof.
  intros Hd. split; apply Ascii.eqb_neq; intros ->; vm_compute in Hd; discriminate.
Qed.

Lemma Itoa_positive (p : positive) :
  Itoa (Z.pos p) = NilEmpty.string_of_uint (Pos.to_uint p).
Proof.
  unfold Itoa. simpl. unfold NilZero.string_of_uint.
  pose proof (DecimalPos.Unsigned.to_uint_nonnil p).
  by destruct (Pos.to_uint p).
Qed.

Lemma Itoa_negative (p : positive) :
  Itoa (Z.neg p) = String "-" (NilEmpty.string_of_uint (Pos.to_uint p)).
Proof.
  unfold Itoa. simpl. unfold NilZero.string_of_uint.
  pose proof (DecimalPos.Unsigned.to_uint_nonnil p).
  by destruct (Pos.to_uint p).
Qed.

(** Atoi reads back the decimal form of every [int]. *)
Lemma Atoi_Itoa (z : Z) :
  GoInt.in_range z -> strconv.Atoi (Itoa z) = (z, None).
Proof.
  intros Hz. unfold GoInt.in_range, GoInt.min_int, GoInt.max_int in Hz.
  destruct z as [|p|p].
  - reflexivity.
  - rewrite Itoa_positive.
    destruct (string_of_positive p) as (c & rest & Hs & Hc).
    pose proof (digits_of_positive p) as Hd. rewrite Hs in Hd.
    destruct (digit_not_sign c Hc) as [Hm Hp].
    rewrite Hs. unfold strconv.Atoi. rewrite Hm, Hp. cbn [orb negb andb].
    rewrite Hd.
    replace (GoInt.max_int <? Z.pos p) with false
      by (symmetry; apply Z.ltb_ge; unfold GoInt.max_int; lia).
    reflexivity.
  - rewrite Itoa_negative.
    destruct (string_of_positive p) as (c & rest & Hs & Hc).
    pose proof (digits_of_positive p) as Hd.
    unfold strconv.Atoi.
    replace (Ascii.eqb "-" "-") with true by reflexivity. cbn [orb negb andb].
    rewrite Hd. rewrite Hs.
    replace (Z.pos p >? - GoInt.min_int) with false
      by (symmetry; rewrite Z.gtb_ltb; apply Z.ltb_ge; unfold GoInt.min_int; lia).
    reflexivity.
Qed.

(** ToInt reads back what Itoa writes: for every [int] value [z],
    [ToInt (Itoa z)] is [z] with a nil error. *)
Theorem ToInt_Itoa (z : Z) :
  GoInt.in_range z -> ToInt (Itoa z) = (z, None).
Proof. intros Hz. unfold ToInt. by rewrite Atoi_Itoa. Qed.

Lemma ToInt_Itoa_witness :
  ToInt (Itoa (-9223372036854775808)) = (-9223372036854775808, None).
Proof. apply ToInt_Itoa. vm_compute. split; congruence. Defined.




(** RandomInt on arguments with [0 <= n < m]: one draw is consumed and the
    result is the decimal form of [n + draw mod (m-n)], a value of
    [[n, m)], which ToInt reads back; no error is returned. *)
Theorem RandomInt_valid (n m : Z) (w : World) :
  0 <= n < m -> m <= GoInt.max_int ->
  let v := n + next_draw w mod (m - n) in
  n <= v < m /\
  RandomInt n m w = Done (Itoa v, None) (advance w) /\
  ToInt (Itoa v) = (v, None).
Proof.
  intros Hnm Hm. cbv zeta.
  destruct (Intn_positive (m - n) w) as [Hdraw Hrange]; [lia|].
  split; [lia|]. split.
  2:{ unfold ToInt. rewrite Atoi_Itoa; [done|].
      unfold GoInt.in_range, GoInt.min_int, GoInt.max_int in *. lia. }
  unfold RandomInt.
  replace ((n <? 0) || (m <? 1)) with false
    by (symmetry; apply orb_false_iff; split; [apply Z.ltb_ge|apply Z.ltb_ge]; lia).
  replace (m <=? n) with false by (symmetry; apply Z.leb_gt; lia).
  unfold GoInt.sub, GoInt.add, bind.
  rewrite (wrap_in_range (m - n))
    by (unfold GoInt.in_range, GoInt.min_int, GoInt.max_int in *; lia).
  rewrite Hdraw.
  rewrite wrap_in_range
    by (unfold GoInt.in_range, GoInt.min_int, GoInt.max_int in *; lia).
  unfold ret. do 3 f_equal. lia.
Qed.

Lemma RandomInt_valid_witness :
  RandomInt 3 10 (Sample.world_of 12 0)
  = Done ("8"%string, None) (advance (Sample.world_of 12 0)).
Proof.
  destruct (RandomInt_valid 3 10 (Sample.world_of 12 0)) as (_ & Hrun & _);
    [lia | vm_compute; congruence |].
  exact Hrun.
Defined.


(** ** B64Encode and B64Decode *)

Lemma decode_encode_value (b5 b4 b3 b2 b1 b0 : bool) :
  base64.decode_char (base64.encode_value (base64.sextet b5 b4 b3 b2 b1 b0))
  = Some (base64.sextet b5 b4 b3 b2 b1 b0).
Proof. destruct b5, b4, b3, b2, b1, b0; reflexivity. Qed.

Lemma encode_value_not_newline (b5 b4 b3 b2 b1 b0 : bool) :
  base64.is_newline (base64.encode_value (base64.sextet b5 b4 b3 b2 b1 b0)) = false.
Proof. destruct b5, b4, b3, b2, b1, b0; reflexivity. Qed.

Lemma decode_char_pad : base64.decode_char base64.padChar = None.
Proof. reflexivity. Qed.

Lemma sextet_bits (b5 b4 b3 b2 b1 b0 : bool) :
  ascii_of_N (base64.sextet b5 b4 b3 b2 b1 b0) = Ascii b0 b1 b2 b3 b4 b5 false false.
Proof. unfold base64.sextet. apply ascii_N_embedding. Qed.

Lemma string_app_cons (c : ascii) (s t : string) :
  (String c s ++ t)%string = String c (s ++ t).
Proof. reflexivity. Qed.

Lemma string_app_nil (t : string) : (EmptyString ++ t)%string = t.
Proof. reflexivity. Qed.

(** A full group is read back, and decoding goes on after it. *)
Lemma decode_quanta_encode3 (x y z : ascii) (rest : string) :
  base64.decode_quanta (base64.encode3 x y z ++ rest)
  = match base64.decode_quanta rest with
    | Some out => Some (String x (String y (String z out)))
    | None => None
    end.
Proof.
  destruct x as [x0 x1 x2 x3 x4 x5 x6 x7].
  destruct y as [y0 y1 y2 y3 y4 y5 y6 y7].
  destruct z as [z0 z1 z2 z3 z4 z5 z6 z7].
  unfold base64.encode3. rewrite !string_app_cons, string_app_nil.
  cbn -[base64.encode_value base64.sextet base64.decode_char base64.byte1 base64.byte2 base64.byte3 base64.is_newline base64.padChar].
  rewrite !decode_encode_value.
  unfold base64.byte1, base64.byte2, base64.byte3.
  rewrite !sextet_bits. reflexivity.
Qed.

Lemma strip_newlines_encode3 (x y z : ascii) (rest : string) :
  base64.strip_newlines (base64.encode3 x y z ++ rest)
  = (base64.encode3 x y z ++ base64.strip_newlines rest)%string.
Proof.
  destruct x as [x0 x1 x2 x3 x4 x5 x6 x7].
  destruct y as [y0 y1 y2 y3 y4 y5 y6 y7].
  destruct z as [z0 z1 z2 z3 z4 z5 z6 z7].
  unfold base64.encode3. rewrite !string_app_cons, string_app_nil.
  cbn -[base64.encode_value base64.sextet base64.decode_char base64.byte1 base64.byte2 base64.byte3 base64.is_newline base64.padChar].
  by rewrite !encode_value_not_newline.
Qed.

(** Reasoning on a string three characters at a time. *)
Lemma string_ind3 (P : string -> Prop) :
  P EmptyString ->
  (forall x, P (String x EmptyString)) ->
  (forall x y, P (String x (String y EmptyString))) ->
  (forall x y z rest, P rest -> P (String x (String y (String z rest)))) ->
  forall s, P s.
Proof.
  intros H0 H1 H2 H3.
  assert (Hall : forall n s, (String.length s <= n)%nat -> P s).
  { induction n as [|n IH]; intros s Hlen.
    - destruct s; [exact H0|simpl in Hlen; lia].
    - destruct s as [|x [|y [|z rest]]]; [exact H0|apply H1|apply H2|].
      apply H3, IH. simpl in Hlen. lia. }
  intros s. by apply (Hall (String.length s)).
Qed.

(** The encoder writes no line break. *)
Lemma strip_newlines_encode (s : string) :
  base64.strip_newlines (base64.EncodeToString s) = base64.EncodeToString s.
Proof.
  induction s as [|x|x y|x y z rest IH] using string_ind3.
  - reflexivity.
  - destruct x as [x0 x1 x2 x3 x4 x5 x6 x7].
    cbn -[base64.encode_value base64.sextet base64.decode_char base64.byte1 base64.byte2 base64.byte3 base64.is_newline base64.padChar].
    by rewrite !encode_value_not_newline.
  - destruct x as [x0 x1 x2 x3 x4 x5 x6 x7].
    destruct y as [y0 y1 y2 y3 y4 y5 y6 y7].
    cbn -[base64.encode_value base64.sextet base64.decode_char base64.byte1 base64.byte2 base64.byte3 base64.is_newline base64.padChar].
    by rewrite !encode_value_not_newline.
  - cbn [base64.EncodeToString]. fold (base64.encode3 x y z).
    by rewrite strip_newlines_encode3, IH.
Qed.

Lemma decode_quanta_encode (s : string) :
  base64.decode_quanta (base64.EncodeToString s) = Some s.
Proof.
  induction s as [|x|x y|x y z rest IH] using string_ind3.
  - reflexivity.
  - destruct x as [x0 x1 x2 x3 x4 x5 x6 x7].
    cbn -[base64.encode_value base64.sextet base64.decode_char base64.byte1 base64.byte2 base64.byte3 base64.is_newline base64.padChar].
    rewrite !decode_encode_value, decode_char_pad.
    unfold base64.byte1. rewrite !sextet_bits. reflexivity.
  - destruct x as [x0 x1 x2 x3 x4 x5 x6 x7].
    destruct y as [y0 y1 y2 y3 y4 y5 y6 y7].
    cbn -[base64.encode_value base64.sextet base64.decode_char base64.byte1 base64.byte2 base64.byte3 base64.is_newline base64.padChar].
    rewrite !decode_encode_value, decode_char_pad.
    unfold base64.byte1, base64.byte2. rewrite !sextet_bits. reflexivity.
  - cbn [base64.EncodeToString]. fold (base64.encode3 x y z).
    by rewrite decode_quanta_encode3, IH.
Qed.

(** B64Encode then B64Decode is the identity: decoding the encoding of any
    byte string gives the string back with a nil error. *)
Theorem B64Decode_B64Encode (data : string) :
  B64Decode (B64Encode data) = (data, None).
Proof.
  unfold B64Decode, B64Encode, base64.DecodeString.
  by rewrite strip_newlines_encode, decode_quanta_encode.
Qed.

(** What B64Decode accepts has, line breaks apart, four characters for
    every three bytes it returns, the last group being padded: input of
    any other length is rejected. *)
Theorem B64Decode_length (data out : string) :
  B64Decode data = (out, None) ->
  String.length (base64.strip_newlines data)
  = (4 * ((String.length out + 2) / 3))%nat.
Proof.
  unfold B64Decode, base64.DecodeString.
  destruct (base64.decode_quanta (base64.strip_newlines data)) as [b|] eqn:Hdec;
    [|discriminate].
  intros [= ->]. revert out Hdec.
  generalize (base64.strip_newlines data) as s.
  assert (Hall : forall n s out,
             (String.length s <= n)%nat ->
             base64.decode_quanta s = Some out ->
             String.length s = (4 * ((String.length out + 2) / 3))%nat).
  { induction n as [|n IH]; intros s out Hlen Hdec.
    - destruct s; [|simpl in Hlen; lia]. injection Hdec as <-. reflexivity.
    - destruct s as [|c0 [|c1 [|c2 [|c3 rest]]]]; try discriminate.
      + injection Hdec as <-. reflexivity.
      + cbn [base64.decode_quanta] in Hdec.
        destruct (base64.decode_char c0) as [a|]; [|discriminate].
        destruct (base64.decode_char c1) as [b|]; [|discriminate].
        destruct (base64.decode_char c2) as [c|].
        * destruct (base64.decode_char c3) as [d|].
          -- destruct (base64.decode_quanta rest) as [out'|] eqn:Hrest; [|discriminate].
             injection Hdec as <-.
             specialize (IH rest out' ltac:(simpl in Hlen; lia) Hrest).
             cbn [String.length]. rewrite IH.
             replace (S (S (S (String.length out'))) + 2)%nat
               with (String.length out' + 2 + 1 * 3)%nat by lia.
             rewrite Nat.div_add by lia. lia.
          -- destruct rest; [|by rewrite andb_false_r in Hdec].
             destruct (Ascii.eqb c3 base64.padChar); [|discriminate].
             injection Hdec as <-. reflexivity.
        * destruct rest; [|by rewrite andb_false_r in Hdec].
          destruct (Ascii.eqb c2 base64.padChar && Ascii.eqb c3 base64.padChar);
            [|discriminate].
          injection Hdec as <-. reflexivity. }
  intros s out Hdec. by apply (Hall (String.length s)).
Qed.

Lemma B64Decode_length_witness :
  String.length (base64.strip_newlines "Zm9vYg==") = 8%nat.
Proof.
  apply (B64Decode_length "Zm9vYg==" "foob"). vm_compute. reflexivity.
Defined.

(** ** Shuffle *)

Lemma insert_head_Permutation (l : list string) (j : nat) (x y : string) :
  l !! j = Some y -> y :: <[j := x]> l ≡ₚ x :: l.
Proof.
  revert j. induction l as [|b l IH]; intros j Hj; [done|].
  destruct j as [|j]; simpl in *.
  - injection Hj as ->. apply perm_swap.
  - rewrite (perm_swap b y). rewrite (IH j Hj). apply perm_swap.
Qed.

(** Writing at [i] what stood at [j] and at [j] what stood at [i] permutes
    the list. *)
Lemma exchange_Permutation (l : list string) (i j : nat) (x y : string) :
  l !! i = Some x -> l !! j = Some y ->
  <[j := x]> (<[i := y]> l) ≡ₚ l.
Proof.
  revert i j. induction l as [|a l IH]; intros i j Hi Hj; [done|].
  destruct i as [|i], j as [|j]; simpl in *.
  - by injection Hi as ->.
  - injection Hi as ->. by apply insert_head_Permutation.
  - injection Hj as ->. by apply insert_head_Permutation.
  - by rewrite (IH i j Hi Hj).
Qed.

Lemma swap_in_bounds (i j : Z) (values : slice) (w : World) :
  0 <= i < len values -> 0 <= j < len values ->
  exists values',
    swap i j values w = Done values' w /\
    elems values' ≡ₚ elems values /\
    spare values' = spare values.
Proof.
  intros Hi Hj.
  destruct (index_in_bounds values j w Hj) as [vj [Hvj Hrj]].
  destruct (index_in_bounds values i w Hi) as [vi [Hvi Hri]].
  eexists. unfold swap, bind. rewrite Hrj, Hri. split; [reflexivity|].
  simpl. split; [|done]. by apply exchange_Permutation.
Qed.

Lemma Shuffle_from_spec (i : nat) :
  forall (values : slice) (w : World),
    Z.of_nat i < len values \/ i = O ->
    exists values',
      Shuffle_from i swap values w = Done values' (advance_by i w) /\
      elems values' ≡ₚ elems values /\
      spare values' = spare values.
Proof.
  induction i as [|i IH]; intros values w Hi.
  - exists values. destruct w. done.
  - destruct Hi as [Hi|]; [|done].
    destruct (Intn_positive (Z.of_nat (S i) + 1) w) as [Hdraw Hrange]; [lia|].
    destruct (swap_in_bounds (Z.of_nat (S i))
                (next_draw w mod (Z.of_nat (S i) + 1)) values (advance w))
      as (values1 & Hswap & Hperm1 & Hspare1); [lia|lia|].
    destruct (IH values1 (advance w)) as (values2 & Hrun & Hperm2 & Hspare2).
    { left. unfold len in *. rewrite Hperm1. lia. }
    exists values2. cbn [Shuffle_from]. unfold bind.
    rewrite Hdraw, Hswap, Hrun.
    split; [|split; [by rewrite Hperm2|congruence]].
    f_equal. unfold advance_by, advance. simpl. f_equal. lia.
Qed.

(** Shuffle never fails: it consumes [len(values) - 1] draws (none for an
    empty sequence) and returns a permutation of the input, in the same
    backing array. *)
Theorem Shuffle_spec (values : slice) (w : World) :
  exists values',
    Shuffle values w = Done values' (advance_by (length (elems values) - 1) w) /\
    elems values' ≡ₚ elems values /\
    spare values' = spare values.
Proof.
  unfold Shuffle, rand_Shuffle.
  replace (len values <? 0) with false
    by (symmetry; apply Z.ltb_ge; apply len_nonneg).
  replace (Z.to_nat (len values - 1)) with (length (elems values) - 1)%nat
    by (unfold len; lia).
  apply Shuffle_from_spec. unfold len. lia.
Qed.

(** ** ListFile *)

Section FilesProperties.

Variable ReadDir : string -> list FileInfo * option error.
Variable path_Join : string -> string -> string.

Lemma ListFile_loop (dirPath : string) (files : list FileInfo) :
  forall paths : slice,
    elems (fold_left
             (fun paths f =>
                if negb (IsDir f) then append paths (path_Join dirPath (Name f))
                else paths)
             files paths)
    = elems paths
      ++ ((fun f => path_Join dirPath (Name f))
            <$> filter (fun f => IsDir f = false) files).
Proof.
  induction files as [|f files IH]; intros paths; simpl.
  - by rewrite app_nil_r.
  - rewrite IH. destruct (IsDir f) eqn:Hd; simpl.
    + rewrite filter_cons_False by congruence. done.
    + rewrite filter_cons_True by done. simpl. by rewrite <- app_assoc.
Qed.

(** ListFile returns the empty sequence with the error when the directory
    cannot be read; otherwise it returns, without error and in the order
    of the listing, the joined path of every entry that is not a
    directory, and of no other entry. *)
Theorem ListFile_spec (dirPath : string) :
  match ReadDir dirPath with
  | (_, Some e) => ListFile ReadDir path_Join dirPath = (empty_slice, Some e)
  | (files, None) =>
      exists paths,
        ListFile ReadDir path_Join dirPath = (paths, None) /\
        elems paths
        = (fun f => path_Join dirPath (Name f))
            <$> filter (fun f => IsDir f = false) files
  end.
Proof.
  unfold ListFile. destruct (ReadDir dirPath) as [files [e|]]; [done|].
  eexists. split; [reflexivity|]. by rewrite ListFile_loop.
Qed.

End FilesProperties.

(** ** Range, past the claim *)

Lemma Range_guard_witness :
  Range 0 5 20 5 Sample.w0 = Done empty_slice Sample.w0.
Proof. apply Range_guard. right. lia. Defined.

(** Past the guard, Range panics whenever [end] lies two steps or more
    below [start]: the capacity [(end-start)/step+1] it asks of [make] is
    negative. *)
Theorem Range_negative_capacity (fuel : nat) (start end_ step : Z) (w : World) :
  0 < step -> start < step ->
  GoInt.min_int <= end_ - start ->
  end_ - start <= - 2 * step ->
  Range fuel start end_ step w = Panic "makeslice: cap out of range".
Proof.
  intros Hstep Hstart Hmin Hlow.
  unfold GoInt.min_int in *. unfold Range.
  replace ((step <=? 0) || (start >=? step)) with false
    by (symmetry; apply orb_false_iff; lia).
  unfold GoInt.sub. rewrite (wrap_in_range (end_ - start))
    by (unfold GoInt.in_range, GoInt.min_int, GoInt.max_int; lia).
  assert (Hopp : (end_ - start) `quot` step = - ((start - end_) `quot` step)).
  { rewrite <- Z.quot_opp_l by lia. f_equal. lia. }
  assert (Hq2 : 2 <= (start - end_) `quot` step)
    by (apply Z.quot_le_lower_bound; lia).
  assert (Hqu : (start - end_) `quot` step <= start - end_)
    by (apply Z.quot_le_upper_bound; nia).
  unfold GoInt.quot. rewrite (wrap_in_range (_ `quot` _))
    by (unfold GoInt.in_range, GoInt.min_int, GoInt.max_int; lia).
  unfold GoInt.add. rewrite (wrap_in_range (_ + 1))
    by (unfold GoInt.in_range, GoInt.min_int, GoInt.max_int; lia).
  unfold bind, make0.
  by replace (_ <? 0) with true by (symmetry; apply Z.ltb_lt; lia).
Qed.

Lemma Range_negative_capacity_witness :
  Range 3 1 (-7) 4 Sample.w0 = Panic "makeslice: cap out of range".
Proof. apply Range_negative_capacity; vm_compute; congruence. Defined.

(** ** The entry points, for every engine *)

Section RenderFurther.

Context {engine : TemplateEngine} {json : JSONDecoder}.
Variable fuel : nat.

(** Whenever [executeData] returns, its error is nil. *)
Theorem executeData_error_is_nil (td : callTemplateData) (data : string)
    (payload : bytes) (err : option error) (w w' : World) :
  executeData fuel td data w = Done (payload, err) w' -> err = None.
Proof.
  unfold executeData.
  destruct (0 <? Z.of_nat (String.length data)); [|by intros [= _ <- _]].
  unfold bind. destruct (execute fuel td data w) as [[tpl e] w1| |]; [|done..].
  by intros [= _ <- _].
Qed.

(** Whenever [executeMetadata] returns, it returns either a map and a nil
    error, or the nil pointer and an error, never both and never neither. *)
Theorem executeMetadata_map_or_error (td : callTemplateData) (metadata : string)
    (md : option (gmap string string)) (err : option error) (w w' : World) :
  executeMetadata fuel td metadata w = Done (md, err) w' ->
  (is_Some md /\ err = None) \/ (md = None /\ is_Some err).
Proof.
  unfold executeMetadata.
  destruct (0 <? Z.of_nat (String.length metadata)).
  - unfold bind. destruct (execute fuel td metadata w) as [[tpl e] w1| |]; [|done..].
    destruct (json_Unmarshal _ ∅) as [m [e'|]]; intros [= <- <- _]; eauto.
  - intros [= <- <- _]. eauto.
Qed.

(** A non-empty template that the parser rejects makes both entry points
    panic with the parse error: [template.Must] turns it into a panic
    before anything is executed, whatever the engine. *)
Theorem parse_failure_panics (td : callTemplateData) (text : string) (e : error)
    (w : World) :
  text <> EmptyString ->
  template_Parse (funcs fuel td) text = inr e ->
  executeData fuel td text w = Panic e /\
  executeMetadata fuel td text w = Panic e.
Proof.
  intros Hne Hp. unfold executeData, executeMetadata.
  rewrite nonempty_length by done. unfold bind.
  by rewrite (execute_parse_failure _ _ _ e).
Qed.

End RenderFurther.

Lemma executeData_error_is_nil_witness :
  match Run.executeData 1 Sample.td "id-{{RandomInt 5 1}}" Sample.w0 with
  | Done (_, err) _ => err = None
  | _ => False
  end.
Proof.
  destruct (Run.executeData 1 Sample.td "id-{{RandomInt 5 1}}" Sample.w0)
    as [[payload err] w'| |] eqn:Hrun.
  - exact (@executeData_error_is_nil MiniTemplate.engine 1 Sample.td _ _ _ _ _ Hrun).
  - vm_compute in Hrun. discriminate.
  - vm_compute in Hrun. discriminate.
Defined.

Lemma executeMetadata_map_or_error_witness :
  match Run.executeMetadata 1 Sample.td "not-json" Sample.w0 with
  | Done (md, err) _ => (is_Some md /\ err = None) \/ (md = None /\ is_Some err)
  | _ => False
  end.
Proof.
  destruct (Run.executeMetadata 1 Sample.td "not-json" Sample.w0)
    as [[md err] w'| |] eqn:Hrun.
  - exact (@executeMetadata_map_or_error MiniTemplate.engine MiniJSON.decoder 1
             Sample.td _ _ _ _ _ Hrun).
  - vm_compute in Hrun. discriminate.
  - vm_compute in Hrun. discriminate.
Defined.

Lemma parse_failure_panics_witness :
  Run.executeData 1 Sample.td "{{.WorkerID" Sample.w0 = Panic "unclosed action" /\
  Run.executeMetadata 1 Sample.td "{{.WorkerID" Sample.w0 = Panic "unclosed action".
Proof.
  apply (@parse_failure_panics MiniTemplate.engine MiniJSON.decoder 1 Sample.td
           "{{.WorkerID" "unclosed action" Sample.w0);
    [discriminate | reflexivity].
Defined.

Lemma executeData_parsed_witness :
  Run.executeData 1 Sample.td "id-{{RandomInt 5 1}}" Sample.w0
  = Done (bytes_of_string "id-{{RandomInt 5 1}}", None)
         (logged Sample.w0 "id-{{RandomInt 5 1}}").
Proof.
  unfold Run.executeData.
  eapply eq_trans.
  - eapply (@executeData_parsed MiniTemplate.engine 1 Sample.td
              "id-{{RandomInt 5 1}}" _ _ _ Sample.w0).
    + discriminate.
    + reflexivity.
    + vm_compute. reflexivity.
  - reflexivity.
Defined.

(** ** Join and Split *)

Lemma string_app_nil_r (s : string) : (s ++ EmptyString)%string = s.
Proof. induction s as [|c s IH]; [done|]. by rewrite string_app_cons, IH. Qed.

Lemma string_app_assoc (s t u : string) :
  ((s ++ t) ++ u)%string = (s ++ (t ++ u))%string.
Proof. induction s as [|c s IH]; [done|]. by rewrite !string_app_cons, IH. Qed.

Lemma string_length_app (s t : string) :
  String.length (s ++ t) = (String.length s + String.length t)%nat.
Proof.
  induction s as [|c s IH]; [done|]. rewrite string_app_cons. simpl. by rewrite IH.
Qed.

Lemma take_drop_string (n : nat) (s : string) :
  (gostrings.take n s ++ gostrings.drop n s)%string = s.
Proof.
  revert s. induction n as [|n IH]; intros [|c s]; simpl; try done.
  by rewrite string_app_cons, IH.
Qed.

Lemma length_drop_string (n : nat) (s : string) :
  String.length (gostrings.drop n s) = (String.length s - n)%nat.
Proof.
  revert s. induction n as [|n IH]; intros [|c s]; simpl; try done; lia.
Qed.

Lemma prefix_nil (s : string) : String.prefix EmptyString s = true.
Proof. by destruct s. Qed.

Lemma prefix_cons (a b : ascii) (sep s : string) :
  String.prefix (String a sep) (String b s)
  = if Ascii.eqb a b then String.prefix sep s else false.
Proof.
  simpl. destruct (ascii_dec a b) as [->|Hne].
  - by rewrite Ascii.eqb_refl.
  - apply Ascii.eqb_neq in Hne. by rewrite Hne.
Qed.

Lemma prefix_drop (sep s : string) :
  String.prefix sep s = true ->
  s = (sep ++ gostrings.drop (String.length sep) s)%string.
Proof.
  revert s. induction sep as [|a sep IH]; intros s H; [done|].
  destruct s as [|b s]; [simpl in H; discriminate|].
  rewrite prefix_cons in H.
  destruct (Ascii.eqb_spec a b) as [->|]; [|discriminate].
  rewrite string_app_cons. simpl. f_equal. by apply IH.
Qed.

Lemma prefix_app (sep x y : string) :
  String.prefix sep x = true -> String.prefix sep (x ++ y) = true.
Proof.
  revert x. induction sep as [|a sep IH]; intros x H; [apply prefix_nil|].
  destruct x as [|b x]; [simpl in H; discriminate|].
  rewrite string_app_cons, prefix_cons. rewrite prefix_cons in H.
  destruct (Ascii.eqb a b); [by apply IH|discriminate].
Qed.

Lemma prefix_refl_app (sep v : string) : String.prefix sep (sep ++ v) = true.
Proof.
  induction sep as [|a sep IH]; [apply prefix_nil|].
  by rewrite string_app_cons, prefix_cons, Ascii.eqb_refl.
Qed.

Lemma prefix_of_nil (sep : string) :
  sep <> EmptyString -> String.prefix sep EmptyString = false.
Proof. by destruct sep. Qed.

Lemma cut_unfold (sep s : string) :
  gostrings.cut sep s
  = if String.prefix sep s
    then Some (EmptyString, gostrings.drop (String.length sep) s)
    else
      match s with
      | EmptyString => None
      | String c rest =>
          match gostrings.cut sep rest with
          | Some (before, after) => Some (String c before, after)
          | None => None
          end
      end.
Proof. by destruct s. Qed.

(** [cut] finds an instance of the separator. *)
Lemma cut_correct (sep s before after : string) :
  gostrings.cut sep s = Some (before, after) ->
  s = (before ++ sep ++ after)%string.
Proof.
  revert before after. induction s as [|c s IH]; intros before after;
    rewrite cut_unfold; destruct (String.prefix sep _) eqn:Hp; try done.
  - intros [= <- <-]. by apply prefix_drop.
  - intros [= <- <-]. by apply prefix_drop.
  - destruct (gostrings.cut sep s) as [[b a]|]; [|done].
    intros [= <- <-]. rewrite string_app_cons. f_equal. by apply IH.
Qed.

(** ... the first one: no instance stands in what comes before it. *)
Lemma cut_before (sep s before after : string) :
  sep <> EmptyString ->
  gostrings.cut sep s = Some (before, after) ->
  gostrings.cut sep before = None.
Proof.
  intros Hsep. revert before after.
  induction s as [|c s IH]; intros before after;
    rewrite cut_unfold; destruct (String.prefix sep _) eqn:Hp.
  - intros [= <- _]. by destruct sep.
  - done.
  - intros [= <- _]. by destruct sep.
  - destruct (gostrings.cut sep s) as [[b a]|] eqn:Hcut; [|done].
    intros [= <- <-]. rewrite cut_unfold.
    destruct (String.prefix sep (String c b)) eqn:Hpb.
    + apply (prefix_app _ _ (sep ++ a)) in Hpb.
      rewrite string_app_cons, <- (cut_correct _ _ _ _ Hcut) in Hpb. congruence.
    + by rewrite (IH b a).
Qed.

Lemma cut_finds (sep u v : string) :
  gostrings.cut sep (u ++ sep ++ v) <> None.
Proof.
  induction u as [|c u IH]; rewrite cut_unfold.
  - rewrite string_app_nil, prefix_refl_app. done.
  - destruct (String.prefix sep _); [done|].
    rewrite string_app_cons.
    by destruct (gostrings.cut sep (u ++ sep ++ v)) as [[b a]|].
Qed.

Lemma split_loop_nonempty (n : nat) (s sep : string) :
  gostrings.split_loop n s sep <> [].
Proof. destruct n; simpl; [done|]. by destruct (gostrings.cut sep s) as [[b a]|]. Qed.

Lemma join_split_loop (sep : string) (n : nat) :
  forall s, gostrings.join (gostrings.split_loop n s sep) sep = s.
Proof.
  induction n as [|n IH]; intros s; [done|]. simpl.
  destruct (gostrings.cut sep s) as [[b a]|] eqn:Hcut; [|done].
  pose proof (split_loop_nonempty n a sep) as Hne.
  specialize (IH a).
  destruct (gostrings.split_loop n a sep) as [|x rest]; [done|].
  change (gostrings.join (b :: x :: rest) sep)
    with ((b ++ sep ++ gostrings.join (x :: rest) sep)%string).
  rewrite IH. symmetry. by apply cut_correct.
Qed.

Lemma rune_size_pos (s : string) :
  s <> EmptyString -> (1 <= gostrings.rune_size s <= 4)%nat.
Proof.
  destruct s as [|c0 r0]; [done|]. intros _. unfold gostrings.rune_size.
  repeat
    match goal with
    | |- context [match ?x with _ => _ end] => destruct x
    | |- context [if ?b then _ else _] => destruct b
    end; lia.
Qed.

Lemma join_cons_empty (x : string) (rest : list string) :
  gostrings.join (x :: rest) EmptyString = (x ++ gostrings.join rest EmptyString)%string.
Proof. destruct rest; simpl; [by rewrite string_app_nil_r|done]. Qed.

Lemma join_explode (n : nat) :
  forall s, (String.length s <= n)%nat ->
            gostrings.join (gostrings.explode n s) EmptyString = s.
Proof.
  induction n as [|n IH]; intros s Hlen.
  - destruct s; [done|simpl in Hlen; lia].
  - destruct s as [|c s]; [done|].
    cbn [gostrings.explode]. rewrite join_cons_empty.
    pose proof (rune_size_pos (String c s) ltac:(done)) as Hk.
    rewrite IH; [apply take_drop_string|].
    rewrite length_drop_string. lia.
Qed.

(** Join undoes Split: for every string and every separator, the empty one
    included, joining the elements of [Split s sep] with [sep] gives [s]
    back. *)
Theorem Join_Split (s sep : string) : Join (Split s sep) sep = s.
Proof.
  unfold Join, Split, gostrings.split. simpl.
  destruct sep as [|c sep].
  - by apply join_explode.
  - apply join_split_loop.
Qed.

Lemma split_loop_free (sep : string) (n : nat) :
  sep <> EmptyString ->
  forall s p,
    (String.length s <= n)%nat ->
    p ∈ gostrings.split_loop n s sep ->
    gostrings.cut sep p = None.
Proof.
  intros Hsep. induction n as [|n IH]; intros s p Hlen Hp.
  - destruct s; [|simpl in Hlen; lia].
    apply list_elem_of_singleton in Hp as ->. by destruct sep.
  - simpl in Hp. destruct (gostrings.cut sep s) as [[b a]|] eqn:Hcut.
    + apply elem_of_cons in Hp as [->|Hp]; [by eapply cut_before|].
      apply (IH a p); [|done].
      apply cut_correct in Hcut. rewrite Hcut, !string_length_app in Hlen.
      destruct sep; [done|]. simpl in Hlen. lia.
    + by apply list_elem_of_singleton in Hp as ->.
Qed.

(** For a separator that is not empty, Split returns at least one element
    and no element contains the separator. *)
Theorem Split_elements (s sep : string) :
  sep <> EmptyString ->
  elems (Split s sep) <> [] /\
  forall p u v, p ∈ elems (Split s sep) -> p <> (u ++ sep ++ v)%string.
Proof.
  intros Hsep. unfold Split, gostrings.split. simpl.
  destruct sep as [|c sep]; [done|]. split; [apply split_loop_nonempty|].
  intros p u v Hp ->.
  apply (cut_finds (String c sep) u v).
  by apply (split_loop_free (String c sep) (String.length s) Hsep s).
Qed.

Lemma Split_elements_witness :
  elems (Split "a--b----c" "--") <> [].
Proof. apply (Split_elements "a--b----c" "--"). discriminate. Defined.

(** ** RandomSliceK with [k = 0] *)

(** With [k = 0] RandomSliceK returns an empty sequence and no error: the
    input itself when it is empty, otherwise the empty window at the start
    [rand.Intn(len(values))] draws. *)
Theorem RandomSliceK_zero (values : slice) (w : World) :
  slice_wf values ->
  exists r w',
    RandomSliceK values 0 w = Done (r, None) w' /\
    elems r = [] /\
    w' = match elems values with [] => w | _ :: _ => advance w end.
Proof.
  intros Hwf. unfold slice_wf in Hwf.
  pose proof (len_le_cap values) as Hcap.
  pose proof (len_nonneg values) as Hlen.
  unfold RandomSliceK.
  replace (len values <? 0) with false by (symmetry; apply Z.ltb_ge; lia).
  destruct (elems values) as [|v vs] eqn:Hvs.
  - replace (len values =? 0) with true
      by (symmetry; apply Z.eqb_eq; unfold len; by rewrite Hvs).
    by exists values, w.
  - assert (Hpos : 1 <= len values) by (unfold len; rewrite Hvs; simpl; lia).
    replace (len values =? 0) with false by (symmetry; apply Z.eqb_neq; lia).
    unfold GoInt.sub, GoInt.add, bind.
    rewrite (wrap_in_range (len values - 0))
      by (unfold GoInt.in_range, GoInt.min_int, GoInt.max_int in *; lia).
    destruct (Intn_positive (len values - 0) w) as [Hdraw Hrange]; [lia|].
    rewrite Hdraw.
    set (start := next_draw w mod (len values - 0)) in *.
    rewrite (wrap_in_range (start + 0))
      by (unfold GoInt.in_range, GoInt.min_int, GoInt.max_int in *; lia).
    destruct (reslice_in_bounds values start (start + 0) (advance w))
      as (r & Hr & Helems & Hlenr); [lia|lia|].
    rewrite Hr. exists r, (advance w). split; [done|]. split; [|done].
    unfold len in Hlenr. destruct (elems r); [done|simpl in Hlenr; lia].
Qed.

Lemma RandomSliceK_zero_witness :
  exists r w',
    RandomSliceK (Sample.strings ["a"; "b"]%string) 0 Sample.w0 = Done (r, None) w' /\
    elems r = [].
Proof.
  destruct (RandomSliceK_zero (Sample.strings ["a"; "b"]%string) Sample.w0)
    as (r & w' & Hrun & Hnil & _); [vm_compute; congruence|].
  by exists r, w'.
Defined.

(** ** The call context builder, past the claim *)

(** For a clock reading at or after the epoch, the millisecond timestamp
    of the context is its nanosecond timestamp cut to the millisecond. *)
Theorem TimestampUnixMilli_truncates (now : Time) (entropy : option (list Z))
    (mtd : MethodDescriptor) (workerID : string) (reqNum : Z) :
  0 <= UnixNano now <= GoInt.max_int ->
  let td := newCallTemplateData now entropy mtd workerID reqNum in
  TimestampUnixMilli td * 1000000 <= TimestampUnixNano td
  < (TimestampUnixMilli td + 1) * 1000000.
Proof.
  intros Hnow. unfold newCallTemplateData.
  destruct (uuid.NewRandom entropy) as [u e]. simpl.
  unfold GoInt.quot. rewrite Z.quot_div_nonneg by lia.
  pose proof (Z.div_mod (UnixNano now) 1000000 ltac:(lia)) as Hdm.
  pose proof (Z.mod_pos_bound (UnixNano now) 1000000 ltac:(lia)) as Hmod.
  rewrite wrap_in_range
    by (unfold GoInt.in_range, GoInt.min_int, GoInt.max_int in *; lia).
  lia.
Qed.

Lemma TimestampUnixMilli_truncates_witness :
  TimestampUnixMilli Sample.td * 1000000 <= TimestampUnixNano Sample.td
  < (TimestampUnixMilli Sample.td + 1) * 1000000.
Proof.
  apply (TimestampUnixMilli_truncates Sample.now (Some (replicate 16 171))
           Sample.mtd "w1" 7).
  vm_compute. split; congruence.
Defined.

Lemma encodeHex_length (bs : list Z) :
  String.length (uuid.encodeHex bs) = (2 * length bs)%nat.
Proof.
  induction bs as [|b bs IH]; [done|].
  unfold uuid.encodeHex in *. simpl fold_right.
  unfold uuid.hex_byte at 1. rewrite !string_app_cons, string_app_nil.
  simpl String.length. rewrite IH. simpl. lia.
Qed.

Lemma NewRandom_length (entropy : option (list Z)) :
  length (fst (uuid.NewRandom entropy)) = 16%nat.
Proof.
  destruct entropy as [bs|]; [|done]. unfold uuid.NewRandom. cbn [fst].
  rewrite !length_insert, length_take, length_app.
  change (length uuid.Nil) with 16%nat. lia.
Qed.

(** Whatever the random reader delivers, the UUID field of the context has
    the 36 characters of the textual form of a UUID. *)
Theorem UUID_length (now : Time) (entropy : option (list Z))
    (mtd : MethodDescriptor) (workerID : string) (reqNum : Z) :
  String.length (UUID (newCallTemplateData now entropy mtd workerID reqNum)) = 36%nat.
Proof.
  pose proof (NewRandom_length entropy) as Hlen.
  unfold newCallTemplateData.
  destruct (uuid.NewRandom entropy) as [u e]. simpl in *.
  unfold uuid.String.
  rewrite !string_length_app, !encodeHex_length.
  rewrite !length_take, !length_drop, Hlen. reflexivity.
Qed.
